(** * thor-os: the RTL8139 receive path and the shell's program loader

    A shallow embedding of [kernel/src/rtl8139.cpp] ([packet_handler],
    [rtl8139::init_driver]) and of the loader functions of the shell
    ([read_elf_file], [allocate_segments], [release_segments],
    [exec_command]).

    Machine integers are [Z] with their wrap-around written out, memory is
    a function from addresses to bytes, and the hardware and the external
    kernel services (port I/O, the allocators, the page mapper) are explicit
    inputs of the functions and events of their traces. *)

From Stdlib Require Import ZArith List Lia Bool Ascii.
From stdpp Require Import base gmap list strings pretty.

Local Open Scope Z_scope.

(** ** Machine integers *)

Definition wrap8 (x : Z) : Z := x mod 2 ^ 8.
Definition wrap16 (x : Z) : Z := x mod 2 ^ 16.
Definition wrap32 (x : Z) : Z := x mod 2 ^ 32.
Definition wrap64 (x : Z) : Z := x mod 2 ^ 64.

(** Memory as the code sees it through [char*]: a byte at every address. *)
Definition memory := Z -> Z.

(** [*reinterpret_cast<uint32_t*>(p)] on x86-64: four bytes, little endian. *)
Definition read_u32 (m : memory) (a : Z) : Z :=
  wrap8 (m a) + 2 ^ 8 * wrap8 (m (a + 1)) + 2 ^ 16 * wrap8 (m (a + 2))
  + 2 ^ 24 * wrap8 (m (a + 3)).

(** Modelled from the spec: [std::copy_n] is the kernel's own, from
    [stl/algorithms.hpp], which is not among the sources; as the handler and
    the loader call it, [copy_n(destination, source, n)] copies [n] bytes
    from [source] to [destination].  [copy_out] is the copy into an array
    that was just allocated with [new char[n]]: the content of the array
    after it. *)
Definition copy_out (m : memory) (source n : Z) : list Z :=
  List.map (fun i => m (source + Z.of_nat i)) (seq 0 (Z.to_nat n)).

(** Modelled from the spec: [std::copy_n(destination, source, n)] of
    [stl/algorithms.hpp] (not among the sources), as a copy into memory; the
    source is read through [source] from [source_at] on. *)
Definition copy_n (destination : Z) (source : memory) (source_at n : Z)
    (m : memory) : memory :=
  fun a => if bool_decide (destination <= a < destination + n)
           then source (source_at + (a - destination))
           else m a.

(** Modelled from the spec: [std::fill_n(destination, n, value)] of
    [stl/algorithms.hpp] (not among the sources) stores [value] in the [n]
    bytes from [destination] on. *)
Definition fill_n (destination n value : Z) (m : memory) : memory :=
  fun a => if bool_decide (destination <= a < destination + n)
           then value else m a.

(** ** The RTL8139 driver *)

Module Rtl8139.

Definition MAC0 : Z := 0x00.
Definition CMD : Z := 0x37.
Definition IMR : Z := 0x3C.
Definition ISR : Z := 0x3E.
Definition RCR : Z := 0x44.
Definition CONFIG_1 : Z := 0x52.
Definition RX_BUF : Z := 0x30.
Definition RX_BUF_PTR : Z := 0x38.
Definition RX_BUF_ADDR : Z := 0x3A.
Definition RX_MISSED : Z := 0x4C.
Definition RX_OK : Z := 0x01.
Definition CMD_NOT_EMPTY : Z := 0x01.

Definition RCR_AAP : Z := Z.shiftl 1 0.
Definition RCR_APM : Z := Z.shiftl 1 1.
Definition RCR_AM : Z := Z.shiftl 1 2.
Definition RCR_AB : Z := Z.shiftl 1 3.
Definition RCR_WRAP : Z := Z.shiftl 1 7.

Definition RX_STATUS_OK : Z := 0x1.
Definition RX_BAD_ALIGN : Z := 0x2.
Definition RX_CRC_ERR : Z := 0x4.
Definition RX_TOO_LONG : Z := 0x8.
Definition RX_RUNT : Z := 0x10.
Definition RX_BAD_SYMBOL : Z := 0x20.

(** The error bits tested by [packet_handler]. *)
Definition rx_error_mask : Z :=
  Z.lor RX_BAD_SYMBOL (Z.lor RX_RUNT (Z.lor RX_TOO_LONG
    (Z.lor RX_CRC_ERR RX_BAD_ALIGN))).

Record rtl8139_t := {
  iobase : Z;          (* uint32_t *)
  phys_buffer_rx : Z;  (* uint64_t *)
  buffer_rx : Z;       (* uint64_t *)
  cur_rx : Z           (* uint64_t, index inside the buffer *)
}.

(** What the driver does to the outside world, in program order. *)
Inductive event :=
| Log (message : string)
| PciWrite (offset value : Z)
| OutByte (port value : Z)
| OutWord (port value : Z)
| OutDword (port value : Z)
| MapPages (virt phys pages : Z)
| IrqHandler (irq : Z)
| Decode (packet_buffer : list Z) (packet_only_length : Z).

(** What the device shows at one evaluation of the drain loop's condition:
    the command register, and the memory read by the iteration that
    follows (the device fills the ring by DMA between iterations). *)
Record rx_poll := {
  cmd : Z;
  ring : memory
}.

(** One execution of the loop body, with the values of its locals. *)
Record rx_iteration := {
  it_cursor : Z;                   (* cur_rx on entry *)
  it_offset : Z;                   (* cur_offset *)
  it_status : Z;                   (* packet_status *)
  it_length : Z;                   (* packet_length *)
  it_forwarded : option (list Z * Z);  (* the packet given to decode *)
  it_next : Z;                     (* cur_rx after the advance *)
  it_events : list event
}.

(** [cur_rx = (cur_rx + packet_length + 4 + 3) & ~3] on [uint64_t]. *)
Definition advance (cur_rx packet_length : Z) : Z :=
  Z.land (wrap64 (cur_rx + packet_length + 4 + 3)) (wrap64 (Z.lnot 3)).

Definition rx_body (desc : rtl8139_t) (m : memory) (cur_rx : Z) : rx_iteration :=
  let cur_offset := cur_rx mod 0x3000 in
  let packet_status := read_u32 m (buffer_rx desc + cur_offset) in
  let packet_length := Z.shiftr packet_status 16 in
  let packet_payload := buffer_rx desc + cur_offset + 4 in
  let '(forwarded, evs) :=
    if negb (Z.land packet_status rx_error_mask =? 0) then
      (None, [Log "rtl8139: Packet Error"])
    else if packet_length =? 0 then
      (None, [Log "rtl8139: Packet Error Length = 0"])
    else
      let packet_only_length := wrap32 (packet_length - 4) in
      let packet_buffer := copy_out m packet_payload packet_only_length in
      (Some (packet_buffer, packet_only_length),
       [Log "rtl8139: Packet OK"; Decode packet_buffer packet_only_length]) in
  let next := advance cur_rx packet_length in
  {| it_cursor := cur_rx;
     it_offset := cur_offset;
     it_status := packet_status;
     it_length := packet_length;
     it_forwarded := forwarded;
     it_next := next;
     it_events := evs ++ [OutWord (iobase desc + RX_BUF_PTR) (wrap16 (next - 0x10));
                          Log "rtl8139: Packet Handled"] |}.

(** The drain loop.  Each evaluation of the condition consumes one poll of
    the device; the loop is left at the first poll whose command register
    has the buffer-empty bit set, and when the device has nothing more to
    show. *)
Fixpoint drain (desc : rtl8139_t) (polls : list rx_poll) (cur_rx : Z)
    : list rx_iteration :=
  match polls with
  | [] => []
  | poll :: rest =>
      if Z.land (cmd poll) CMD_NOT_EMPTY =? 0 then
        let it := rx_body desc (ring poll) cur_rx in
        it :: drain desc rest (it_next it)
      else []
  end.

Definition final_cursor (cur_rx : Z) (its : list rx_iteration) : Z :=
  List.last (List.map it_next its) cur_rx.

(** [packet_handler]: [status] is the value read from the interrupt status
    register.  Returns the descriptor, the iterations of the drain loop and
    the trace of the whole handler. *)
Definition packet_handler (desc : rtl8139_t) (status : Z) (polls : list rx_poll)
    : rtl8139_t * list rx_iteration * list event :=
  let ack := [Log "rtl8139: Packet Received"; OutWord (iobase desc + ISR) status] in
  if negb (Z.land status RX_OK =? 0) then
    let its := drain desc polls (cur_rx desc) in
    ({| iobase := iobase desc;
        phys_buffer_rx := phys_buffer_rx desc;
        buffer_rx := buffer_rx desc;
        cur_rx := final_cursor (cur_rx desc) its |},
     its,
     ack ++ [Log "rtl8139: Receive status OK"]
         ++ List.concat (List.map it_events its))
  else
    (desc, [], ack ++ [Log "rtl8139: Receive status not OK"]).

(** The handler runs once per interrupt, on the descriptor that the previous
    interrupt left: [irqs] gives, for each interrupt, the interrupt status
    and the polls of the device.  Returns the descriptor after the last
    interrupt and the iterations of all the drain loops, in order. *)
Fixpoint handle_all (desc : rtl8139_t) (irqs : list (Z * list rx_poll))
    : rtl8139_t * list rx_iteration :=
  match irqs with
  | [] => (desc, [])
  | (status, polls) :: rest =>
      let '(desc', its, _) := packet_handler desc status polls in
      let '(final, more) := handle_all desc' rest in
      (final, its ++ more)
  end.

(** What [init_driver] reads from the PCI configuration space, the device
    and the allocators. *)
Record init_input := {
  pci_command : Z;        (* read_config_dword(.., 0x4) *)
  pci_bar0 : Z;           (* read_config_dword(.., 0x10) *)
  pci_irq : Z;            (* read_config_dword(.., 0x3c) *)
  reset_polls : list Z;   (* successive reads of CMD during the reset wait *)
  rx_phys : Z;            (* physical_allocator::allocate(3) *)
  rx_virt : Z;            (* virtual_allocator::allocate(3) *)
  map_ok : bool;          (* paging::map_pages(..) *)
  mac_byte : Z -> Z       (* in_byte(iobase + i) *)
}.

(** [while((in_byte(iobase + CMD) & 0x10) != 0) {}]: the wait ends at the
    first read with the reset bit clear; it never ends when there is none. *)
Fixpoint wait_reset (polls : list Z) : bool :=
  match polls with
  | [] => false
  | c :: rest => if Z.land c 0x10 =? 0 then true else wait_reset rest
  end.

Definition read_mac (mac_byte : Z -> Z) : Z :=
  fold_left (fun mac i => Z.lor mac (Z.shiftl (wrap8 (mac_byte i)) ((5 - i) * 8)))
            [0; 1; 2; 3; 4; 5] 0.

Record init_result := {
  desc_of : rtl8139_t;
  memory_of : memory;
  mac_address : Z;
  init_events : list event
}.

(** [rtl8139::init_driver]; [None] when the software reset never completes. *)
Definition init_driver (inp : init_input) (m : memory) : option init_result :=
  let command_register := Z.lor (pci_command inp) 0x4 in
  let io := Z.land (pci_bar0 inp) (wrap32 (Z.lnot 0x3)) in
  if wait_reset (reset_polls inp) then
    let buffer_rx_phys := rx_phys inp in
    let buffer_rx_virt := rx_virt inp in
    let desc := {| iobase := io;
                   phys_buffer_rx := buffer_rx_phys;
                   buffer_rx := buffer_rx_virt;
                   cur_rx := 0 |} in
    let irq := Z.land (pci_irq inp) 0xFF in
    Some {| desc_of := desc;
            memory_of := fill_n (buffer_rx desc) 0x3000 0 m;
            mac_address := read_mac (mac_byte inp);
            init_events :=
              [Log "rtl8139: Initialize RTL8139 driver";
               PciWrite 0x4 command_register;
               Log "rtl8139: I/O Base address";
               OutByte (io + CONFIG_1) 0x0;
               OutByte (io + CMD) 0x10;
               OutDword (io + RX_BUF) (wrap32 buffer_rx_phys);
               OutDword (io + RX_BUF_PTR) 0;
               OutDword (io + RX_BUF_ADDR) 0;
               MapPages buffer_rx_virt buffer_rx_phys 3]
              ++ (if map_ok inp then [] else [Log "rtl8139: Unable to map"])
              ++ [Log "rtl8139: Physical RX Buffer";
                  Log "rtl8139: Virtual RX Buffer";
                  IrqHandler irq;
                  Log "rtl8139: IRQ";
                  OutWord (io + IMR) 0x0005;
                  OutDword (io + RCR)
                    (Z.lor RCR_AAP (Z.lor RCR_APM (Z.lor RCR_AM (Z.lor RCR_AB RCR_WRAP))));
                  OutDword (io + RX_MISSED) 0x0;
                  OutByte (io + CMD) 0x0C;
                  Log "rtl8139: MAC Address"] |}
  else None.

(** *** Vocabulary of the properties, and sample inputs *)

(** Each iteration of a run starts at the cursor that the one before left. *)
Fixpoint chained (start : Z) (its : list rx_iteration) : Prop :=
  match its with
  | [] => True
  | it :: rest => it_cursor it = start /\ chained (it_next it) rest
  end.

(** What holds of every iteration of a run that starts on an aligned cursor. *)
Definition iteration_ok (it : rx_iteration) : Prop :=
  it_cursor it mod 4 = 0
  /\ it_next it mod 4 = 0
  /\ it_offset it = it_cursor it mod 0x3000
  /\ 0 <= it_offset it < 0x3000.

(** A ring whose frame header at [at_] has the status [status] and the
    length [len], and zero bytes everywhere else. *)
Definition ring_with_header (at_ status len : Z) : memory :=
  fun a => if a =? at_ then status mod 256
           else if a =? at_ + 1 then status / 256
           else if a =? at_ + 2 then len mod 256
           else if a =? at_ + 3 then len / 256
           else 0.

Definition sample_desc : rtl8139_t :=
  {| iobase := 0xC000; phys_buffer_rx := 0x200000; buffer_rx := 0x100000; cur_rx := 0 |}.

Definition sample_input : init_input :=
  {| pci_command := 0x3; pci_bar0 := 0xC001; pci_irq := 0x10B;
     reset_polls := [0x10; 0x10; 0x00];
     rx_phys := 0x200000; rx_virt := 0x100000; map_ok := true;
     mac_byte := fun i => 0x52 + i |}.

Definition sample_irqs : list (Z * list rx_poll) :=
  [(0x01, [{| cmd := 0; ring := ring_with_header 0x100000 1 64 |};
           {| cmd := 0; ring := ring_with_header 0x100044 1 61 |};
           {| cmd := 1; ring := fun _ => 0 |}]);
   (0x04, [{| cmd := 0; ring := fun _ => 0 |}]);
   (0x05, [{| cmd := 0; ring := ring_with_header 0x100088 5 1500 |}])].

(** The values written to the read-pointer register by a trace, in order. *)
Definition pointer_writes (desc : rtl8139_t) (evs : list event) : list Z :=
  omap (fun e => match e with
                 | OutWord port value =>
                     if port =? iobase desc + RX_BUF_PTR then Some value else None
                 | _ => None
                 end) evs.

(** The packets given to the link-layer decoder by a trace, in order. *)
Definition decoded (evs : list event) : list (list Z * Z) :=
  omap (fun e => match e with Decode b n => Some (b, n) | _ => None end) evs.

End Rtl8139.

(** ** The program loader of the shell *)

Module Shell.

(** Modelled from the spec: [paging::PAGE_SIZE] is declared in [paging.hpp],
    which is not among the sources; pages are 4 KiB (three pages are
    12 KiB). *)
Definition PAGE_SIZE : Z := 4096.

(** Modelled from the spec: [paging::page_align] ([paging.hpp], not among the
    sources) rounds an address down to the start of its page. *)
Definition page_align (a : Z) : Z := a / PAGE_SIZE * PAGE_SIZE.

(** Modelled from the spec: [paging::page_aligned] ([paging.hpp], not among
    the sources) tests that an address is on a page boundary. *)
Definition page_aligned (a : Z) : bool := a mod PAGE_SIZE =? 0.

(** The protection attributes given to [paging::map_pages]. *)
Record page_flags := {
  PRESENT : bool;
  WRITE : bool;
  USER : bool
}.

(** The fields of [elf::program_header] that the shell reads. *)
Record program_header := {
  p_type : Z;
  p_offset : Z;
  p_vaddr : Z;
  p_paddr : Z;
  p_filesize : Z;
  p_memsz : Z
}.

(** The content of a file as the loader looks at it: its length, its bytes
    as read through [buffer] (behind the end of the string lies whatever the
    memory holds there), and the views that the casts to [elf::elf_header]
    and [elf::program_header] give: the entry point and the [e_phnum]
    entries of the program header table. *)
Record file_content := {
  content_size : Z;
  buffer : memory;
  e_entry : Z;
  program_header_table : list program_header
}.

Definition e_phnum (content : file_content) : nat :=
  length (program_header_table content).

Inductive event :=
| KPrint (text : string)
| Malloc (bytes result : Z)
| Free (block : Z)
| MapPages (virt phys pages : Z) (flags : page_flags) (ok : bool)
| UnmapPages (virt pages : Z) (ok : bool).

(** The kernel state the loader works on.  The answers of the allocator and
    of the page mapper are decided outside the loader: the scripts hold the
    answers of the calls to come. *)
Record kernel := {
  page_table : gmap Z Z;     (* present virtual page -> physical page *)
  heap : gset Z;             (* blocks given out by k_malloc, not yet freed *)
  ram : memory;
  malloc_script : list Z;
  map_script : list bool;
  unmap_script : list bool;
  trace : list event         (* oldest first *)
}.

Definition emit (e : event) (k : kernel) : kernel :=
  {| page_table := page_table k; heap := heap k; ram := ram k;
     malloc_script := malloc_script k; map_script := map_script k;
     unmap_script := unmap_script k; trace := trace k ++ [e] |}.

Definition k_print (text : string) (k : kernel) : kernel :=
  emit (KPrint text) k.

Definition k_print_line (text : string) (k : kernel) : kernel :=
  emit (KPrint text) k.

(** The virtual pages [virt], [virt + PAGE_SIZE], ... of a range. *)
Definition page_range (virt pages : Z) : list Z :=
  List.map (fun i => wrap64 (virt + Z.of_nat i * PAGE_SIZE)) (seq 0 (Z.to_nat pages)).

(** Modelled from the spec: [paging::page_present] is not among the sources;
    [is_present(virtual_address) -> bool] tells whether the page of the
    address is mapped. *)
Definition page_present (k : kernel) (a : Z) : bool :=
  bool_decide (is_Some (page_table k !! page_align a)).

(** Modelled from the spec: [paging::map_pages] is not among the sources;
    [map(virtual_base, physical_base, page_count, flags) -> success].
    Whether the call succeeds is the mapper's decision (the next answer of the
    script, success when the script is used up); a successful call makes the
    pages of the range present, a failed one leaves the table as it is. *)
Definition map_pages (virt phys pages : Z) (flags : page_flags) (k : kernel)
    : bool * kernel :=
  let ok := hd true (map_script k) in
  let table :=
    if ok then
      fold_left (fun t i => <[wrap64 (virt + Z.of_nat i * PAGE_SIZE)
                               := wrap64 (phys + Z.of_nat i * PAGE_SIZE)]> t)
                (seq 0 (Z.to_nat pages)) (page_table k)
    else page_table k in
  (ok,
   {| page_table := table; heap := heap k; ram := ram k;
      malloc_script := malloc_script k; map_script := tl (map_script k);
      unmap_script := unmap_script k;
      trace := trace k ++ [MapPages virt phys pages flags ok] |}).

(** Modelled from the spec: [paging::unmap_pages] is not among the sources;
    [unmap(virtual_base, page_count) -> success].  Whether the call succeeds
    is the mapper's decision (the next answer of the script, success when the
    script is used up); a successful call removes the pages of the range. *)
Definition unmap_pages (virt pages : Z) (k : kernel) : bool * kernel :=
  let ok := hd true (unmap_script k) in
  let table :=
    if ok then fold_left (fun t v => delete v t) (page_range virt pages) (page_table k)
    else page_table k in
  (ok,
   {| page_table := table; heap := heap k; ram := ram k;
      malloc_script := malloc_script k; map_script := map_script k;
      unmap_script := tl (unmap_script k);
      trace := trace k ++ [UnmapPages virt pages ok] |}).

(** Modelled from the spec: [k_malloc] is not among the sources.  It returns
    a block of at least the requested size or fails with a null pointer;
    which one is the allocator's decision (the next answer of the script,
    failure when the script is used up).  A block that was given out is in
    [heap] until it is freed. *)
Definition k_malloc (bytes : Z) (k : kernel) : Z * kernel :=
  let memory := hd 0 (malloc_script k) in
  (memory,
   {| page_table := page_table k;
      heap := if memory =? 0 then heap k else {[memory]} ∪ heap k;
      ram := ram k;
      malloc_script := tl (malloc_script k); map_script := map_script k;
      unmap_script := unmap_script k;
      trace := trace k ++ [Malloc bytes memory] |}).

(** Modelled from the spec: [k_free] is not among the sources; it gives the
    block back to the allocator. *)
Definition k_free (block : Z) (k : kernel) : kernel :=
  {| page_table := page_table k; heap := heap k ∖ {[block]}; ram := ram k;
     malloc_script := malloc_script k; map_script := map_script k;
     unmap_script := unmap_script k; trace := trace k ++ [Free block] |}.

Definition store (m : memory) (k : kernel) : kernel :=
  {| page_table := page_table k; heap := heap k; ram := m;
     malloc_script := malloc_script k; map_script := map_script k;
     unmap_script := unmap_script k; trace := trace k |}.

(** The locals that [allocate_segments], [allocate_user_stack] and
    [release_segments] compute from an address and a size. *)
Record layout := {
  first_page : Z;
  left_padding : Z;
  bytes : Z;
  pages : Z
}.

Definition layout_of (address size : Z) : layout :=
  let first_page := page_align address in
  let left_padding := wrap64 (address - first_page) in
  let bytes := wrap64 (left_padding + PAGE_SIZE + size) in
  {| first_page := first_page;
     left_padding := left_padding;
     bytes := bytes;
     pages := bytes / PAGE_SIZE + 1 |}.

(** The loop that verifies that all the necessary pages are free. *)
Definition some_page_present (k : kernel) (first_page pages : Z) : bool :=
  existsb (page_present k) (page_range first_page pages).

(** "Find a start of a page inside the physical memory". *)
Definition aligned_memory_of (memory : Z) : Z :=
  if page_aligned memory then memory
  else wrap64 ((memory / PAGE_SIZE + 1) * PAGE_SIZE).

(** One iteration of the loop of [allocate_segments], for the program header
    [p_header] at index [p]: the flag [failed], the handle array and the
    kernel after it. *)
Definition allocate_segment (content : file_content) (flags : page_flags)
    (p : nat) (p_header : program_header) (allocated_segments : list Z)
    (k : kernel) : bool * list Z * kernel :=
  let allocated_segments := <[p := 0]> allocated_segments in
  if p_type p_header =? 1 then
    let l := layout_of (p_vaddr p_header) (p_memsz p_header) in
    if some_page_present k (first_page l) (pages l) then
      (true, allocated_segments, k_print_line "Some pages are already mapped" k)
    else
      let '(memory, k) := k_malloc (bytes l) k in
      if memory =? 0 then
        (true, allocated_segments,
         k_print_line "Cannot allocate memory, probably out of memory" k)
      else
        let allocated_segments := <[p := memory]> allocated_segments in
        let aligned_memory := aligned_memory_of memory in
        let '(ok, k) := map_pages (first_page l) aligned_memory (pages l) flags k in
        if negb ok then
          (true, allocated_segments, k_print_line "Mapping the pages failed" k)
        else
          let memory_start := wrap64 (aligned_memory + left_padding l) in
          (false, allocated_segments,
           store (copy_n memory_start (buffer content) (p_offset p_header)
                         (p_memsz p_header) (ram k)) k)
  else (false, allocated_segments, k).

(** The loop of [allocate_segments] from index [p] on; a failed iteration
    leaves the loop. *)
Fixpoint allocate_from (content : file_content) (flags : page_flags) (p : nat)
    (headers : list program_header) (allocated_segments : list Z) (k : kernel)
    : bool * list Z * kernel :=
  match headers with
  | [] => (false, allocated_segments, k)
  | p_header :: rest =>
      let '(failed, allocated_segments, k) :=
        allocate_segment content flags p p_header allocated_segments k in
      if failed then (true, allocated_segments, k)
      else allocate_from content flags (S p) rest allocated_segments k
  end.

(** [allocate_segments]: returns [failed]. *)
Definition allocate_segments (content : file_content) (allocated_segments : list Z)
    (flags : page_flags) (k : kernel) : bool * list Z * kernel :=
  allocate_from content flags 0 (program_header_table content) allocated_segments k.

(** [allocate_user_stack]: returns the block, null on failure. *)
Definition allocate_user_stack (stack_address stack_size : Z) (flags : page_flags)
    (k : kernel) : Z * kernel :=
  let l := layout_of stack_address stack_size in
  if some_page_present k (first_page l) (pages l) then
    (0, k_print_line "Some pages are already mapped" k)
  else
    let '(memory, k) := k_malloc (bytes l) k in
    if memory =? 0 then
      (0, k_print_line "Cannot allocate memory, probably out of memory" k)
    else
      let aligned_memory := aligned_memory_of memory in
      let '(ok, k) := map_pages (first_page l) aligned_memory (pages l) flags k in
      if negb ok then (0, k_print_line "Mapping the pages failed" k)
      else
        let memory_start := wrap64 (aligned_memory + left_padding l) in
        (memory, store (fill_n memory_start stack_size 0 (ram k)) k).

(** One iteration of the loop of [release_segments]. *)
Definition release_segment (p : nat) (p_header : program_header)
    (allocated_segments : list Z) (k : kernel) : kernel :=
  let a := allocated_segments !!! p in
  if negb (a =? 0) then
    let k := k_free a k in
    let l := layout_of (p_vaddr p_header) (p_memsz p_header) in
    let '(ok, k) := unmap_pages (first_page l) (pages l) k in
    if negb ok then k_print_line "Unmap failed, memory could be in invalid state" k
    else k
  else k.

Fixpoint release_from (p : nat) (headers : list program_header)
    (allocated_segments : list Z) (k : kernel) : kernel :=
  match headers with
  | [] => k
  | p_header :: rest =>
      release_from (S p) rest allocated_segments
                   (release_segment p p_header allocated_segments k)
  end.

(** [release_segments]: it reads the handle array and never writes it. *)
Definition release_segments (content : file_content) (allocated_segments : list Z)
    (k : kernel) : kernel :=
  release_from 0 (program_header_table content) allocated_segments k.

(** What [exec_command] takes from the rest of the kernel: the state of the
    disks, the file system, the ELF check of [elf.hpp] and, for each slot of
    a new [std::unique_heap_array<void*>], the value that the memory of the
    array happens to hold (the array does not initialize its slots). *)
Record system := {
  mounted_partition : bool;
  mounted_disk : bool;
  read_file : string -> file_content;
  is_valid : file_content -> bool;
  uninitialized : nat -> Z
}.

(** [std::unique_heap_array<void*> allocated_segments(n)]. *)
Definition new_array (sys : system) (n : nat) : list Z :=
  uninitialized sys <$> seq 0 n.

(** [read_elf_file]. *)
Definition read_elf_file (sys : system) (file name : string) (k : kernel)
    : option file_content * kernel :=
  let content := read_file sys file in
  if content_size content =? 0 then
    (None, k_print_line ": The file does not exist or is empty" (k_print name k))
  else if negb (is_valid sys content) then
    (None, k_print_line ": This file is not an ELF file or not in ELF64 format"
                        (k_print name k))
  else (Some content, k).

(** How [exec_command] ends: it returns to the shell, or the [iretq] gives
    the processor to the program and the function never returns. *)
Inductive outcome :=
| Returned (k : kernel)
| Transferred (k : kernel) (entry stack_pointer : Z).

Definition user_flags : page_flags :=
  {| PRESENT := true; WRITE := true; USER := true |}.

(** [exec_command]. *)
Definition exec_command (sys : system) (params : list string) (k : kernel)
    : outcome :=
  if (length params <? 2)%nat then
    Returned (k_print_line "exec: Need the name of the executable to read" k)
  else if negb (mounted_partition sys) || negb (mounted_disk sys) then
    Returned (k_print_line "Nothing is mounted" k)
  else
    match read_elf_file sys (params !!! 1%nat) "exec" k with
    | (None, k) => Returned k
    | (Some content, k) =>
        let allocated_segments := new_array sys (e_phnum content) in
        let '(failed, allocated_segments, k) :=
          allocate_segments content allocated_segments user_flags k in
        if negb failed then
          let '(stack_physical, k) :=
            allocate_user_stack 0x500000 (PAGE_SIZE * 2) user_flags k in
          if negb (stack_physical =? 0) then
            Transferred k (e_entry content) (0x500000 + PAGE_SIZE * 2 - 64)
          else
            Returned (release_segments content allocated_segments
                        (k_print_line "Unable to allocate a stack for the program" k))
        else
          Returned (release_segments content allocated_segments
                      (k_print_line "execin: Unable to execute the program" k))
    end.

(** *** Vocabulary of the properties, and sample inputs *)

(** The blocks freed by a trace, in order. *)
Definition freed (evs : list event) : list Z :=
  omap (fun e => match e with Free a => Some a | _ => None end) evs.

(** The events of the release of the slot [p] that holds the block [a]. *)
Definition release_events (p_header : program_header) (a : Z) (ok : bool)
    : list event :=
  let l := layout_of (p_vaddr p_header) (p_memsz p_header) in
  [Free a; UnmapPages (first_page l) (pages l) ok]
  ++ (if ok then [] else [KPrint "Unmap failed, memory could be in invalid state"]).

(** The slots [p], [p + 1], ... that a loop over [n] program headers reads. *)
Definition slots_from (p n : nat) (allocated_segments : list Z) : list Z :=
  (fun q => allocated_segments !!! q) <$> seq p n.

(** The page ranges unmapped by a trace, in order. *)
Definition unmapped (evs : list event) : list (Z * Z) :=
  omap (fun e => match e with UnmapPages v n _ => Some (v, n) | _ => None end) evs.

(** The events of the loop of [release_segments], read off the handle array;
    [answers] are the answers of the page mapper to the calls of
    [paging::unmap_pages]. *)
Fixpoint release_trace (p : nat) (headers : list program_header)
    (allocated_segments : list Z) (answers : list bool) : list event :=
  match headers with
  | [] => []
  | p_header :: rest =>
      let a := allocated_segments !!! p in
      if a =? 0 then release_trace (S p) rest allocated_segments answers
      else release_events p_header a (hd true answers)
           ++ release_trace (S p) rest allocated_segments (tl answers)
  end.

(** In the trace of the loop every [k_free] is followed at once by the
    [unmap_pages] of the same slot, and there is no other [unmap_pages]. *)
Inductive free_then_unmap : list event -> Prop :=
| ftu_nil : free_then_unmap []
| ftu_print text evs : free_then_unmap evs -> free_then_unmap (KPrint text :: evs)
| ftu_pair a v n ok evs :
    free_then_unmap evs -> free_then_unmap (Free a :: UnmapPages v n ok :: evs).

Definition is_map_pages (e : event) : Prop :=
  match e with MapPages _ _ _ _ _ => True | _ => False end.

(** A segment that cannot be loaded: it is loadable and one of its pages is
    already mapped, or the allocator has no memory, or the mapper refuses. *)
Definition segment_blocked (p_header : program_header) (k : kernel) : Prop :=
  p_type p_header = 1
  /\ let l := layout_of (p_vaddr p_header) (p_memsz p_header) in
     (exists v, v ∈ page_range (first_page l) (pages l) /\ page_present k v = true)
     \/ hd 0 (malloc_script k) = 0
     \/ hd true (map_script k) = false.

(** A loadable segment with one byte in the file and two in memory. *)
Definition bss_segment : program_header :=
  {| p_type := 1; p_offset := 0x40; p_vaddr := 0x400000; p_paddr := 0x400000;
     p_filesize := 1; p_memsz := 2 |}.

Definition bss_content : file_content :=
  {| content_size := 0x80;
     buffer := fun i => if bool_decide (0 <= i < 0x80) then i + 1 else 0;
     e_entry := 0x400000;
     program_header_table := [bss_segment] |}.

(** A kernel with nothing mapped and nothing allocated, whose memory holds
    0xEE everywhere and whose allocator will answer with [answers]. *)
Definition fresh_kernel (answers : list Z) : kernel :=
  {| page_table := ∅; heap := ∅; ram := fun _ => 0xEE;
     malloc_script := answers; map_script := []; unmap_script := [];
     trace := [] |}.

(** The handle array after the load of [bss_content] with this allocator. *)
Definition loaded_handles : list Z := [0x300010].

(** A system with a mounted disk whose files are all [content], and whose
    ELF check looks at the first byte of the file. *)
Definition sample_system (content : file_content) : system :=
  {| mounted_partition := true; mounted_disk := true;
     read_file := fun _ => content;
     is_valid := fun c => buffer c 0 =? 0x7F;
     uninitialized := fun _ => 0xDEAD |}.

Definition text_segment : program_header :=
  {| p_type := 1; p_offset := 0x40; p_vaddr := 0x400000; p_paddr := 0x400000;
     p_filesize := 0x10; p_memsz := 0x10 |}.

Definition data_segment : program_header :=
  {| p_type := 1; p_offset := 0x50; p_vaddr := 0x600000; p_paddr := 0x600000;
     p_filesize := 0x10; p_memsz := 0x10 |}.

Definition note_segment : program_header :=
  {| p_type := 4; p_offset := 0x60; p_vaddr := 0; p_paddr := 0;
     p_filesize := 0x10; p_memsz := 0x10 |}.

(** An image with two loadable segments and a note. *)
Definition two_segments : file_content :=
  {| content_size := 0x80;
     buffer := fun i => if i =? 0 then 0x7F else i;
     e_entry := 0x400000;
     program_header_table := [text_segment; data_segment; note_segment] |}.

(** A kernel in which the first page of [data_segment] is already mapped. *)
Definition premapped_kernel : kernel :=
  {| page_table := {[ 0x600000 := 0x700000 ]}; heap := ∅; ram := fun _ => 0xEE;
     malloc_script := [0x300010; 0x310000]; map_script := []; unmap_script := [];
     trace := [] |}.

(** The content of a new handle array that was never written. *)
Definition stale_handles : list Z := [0xDEAD; 0xBEEF; 0xF00D].

(** The virtual pages that the loader maps for a segment and that the
    cleanup unmaps. *)
Definition segment_pages (p_header : program_header) : list Z :=
  let l := layout_of (p_vaddr p_header) (p_memsz p_header) in
  page_range (first_page l) (pages l).

(** The reasons for which [allocate_user_stack] gives up. *)
Definition stack_blocked (stack_address stack_size : Z) (k : kernel) : Prop :=
  let l := layout_of stack_address stack_size in
  (exists v, v ∈ page_range (first_page l) (pages l) /\ page_present k v = true)
  \/ hd 0 (malloc_script k) = 0
  \/ hd true (map_script k) = false.

(** [execin_command].  [call entry k] is the effect of calling the code at
    the address [entry], which the image brought itself, as a function
    without arguments that returns an [int]: the value it returns and the
    kernel it leaves.  The command
    runs in kernel mode: the pages are mapped without [USER]. *)
Definition kernel_flags : page_flags :=
  {| PRESENT := true; WRITE := true; USER := false |}.

Definition execin_command (sys : system) (call : Z -> kernel -> Z * kernel)
    (params : list string) (k : kernel) : kernel :=
  if (length params <? 2)%nat then
    k_print_line "execin: Need the name of the executable to read" k
  else if negb (mounted_partition sys) || negb (mounted_disk sys) then
    k_print_line "Nothing is mounted" k
  else
    match read_elf_file sys (params !!! 1%nat) "execin" k with
    | (None, k) => k
    | (Some content, k) =>
        let allocated_segments := new_array sys (e_phnum content) in
        let '(failed, allocated_segments, k) :=
          allocate_segments content allocated_segments kernel_flags k in
        if negb failed then
          let '(return_code, k) := call (e_entry content) k in
          release_segments content allocated_segments
            (k_print ("Returned " +:+ pretty return_code +:+ String (Ascii.ascii_of_nat 10) EmptyString) k)
        else
          release_segments content allocated_segments
            (k_print_line "execin: Unable to execute the program" k)
    end.

End Shell.

(** ** The shell: line editing, history, dispatch and the disk commands *)

Module Commands.

Local Open Scope nat_scope.

(** The commands of the table [commands]. *)
Inductive command :=
| reboot_command | help_command | uptime_command | clear_command | date_command
| sleep_command | echo_command | mmap_command | memory_command
| memorydebug_command | disks_command | partitions_command | mount_command
| unmount_command | ls_command | free_command | cd_command | pwd_command
| sysinfo_command | cat_command | mkdir_command | touch_command | rm_command
| readelf_command | exec_command | execin_command | shutdown_command
| vesainfo_command | divzero_command.

(** The table [commands], in its order. *)
Definition commands : list (string * command) :=
  [("reboot", reboot_command); ("help", help_command); ("uptime", uptime_command);
   ("clear", clear_command); ("date", date_command); ("sleep", sleep_command);
   ("echo", echo_command); ("mmap", mmap_command); ("memory", memory_command);
   ("memorydebug", memorydebug_command); ("disks", disks_command);
   ("partitions", partitions_command); ("mount", mount_command);
   ("unmount", unmount_command); ("ls", ls_command); ("free", free_command);
   ("cd", cd_command); ("pwd", pwd_command); ("sysinfo", sysinfo_command);
   ("cat", cat_command); ("mkdir", mkdir_command); ("touch", touch_command);
   ("rm", rm_command); ("readelf", readelf_command); ("exec", exec_command);
   ("execin", execin_command); ("shutdown", shutdown_command);
   ("vesainfo", vesainfo_command); ("divzero", divzero_command)]%string.

Inductive argument :=
| Num (n : Z)
| Str (s : string).

(** What the shell does to the console and to the disks, in program order.
    A call of a command through the table is an event too. *)
Inductive output :=
| PrintStr (text : string)          (* k_print of a string *)
| PrintChar (c : Ascii.ascii)             (* k_print of a character *)
| PrintNum (n : Z)                  (* k_print of a number *)
| PrintLine (text : string)         (* k_print_line, with or without a text *)
| Printf (format : string) (arguments : list argument)
| SetColumn (column : Z)
| Run (c : command) (params : list string)
| DiskMkdir (name : string)
| DiskTouch (name : string)
| DiskRm (name : string)
| DiskMount (disk partition : Z)
| DiskUnmount.

(** The globals of the shell, and all that was written to the console. *)
Record shell := {
  history : list string;
  history_index : nat;
  shift : bool;
  current_input : string;
  screen : list output
}.

(** What the shell takes from [keyboard.hpp], from the console and from the
    string library, none of which is among the sources: the key codes, the two
    translations of a key to a character (the null character when there is
    none), the column of the cursor after what was printed, and
    [std::split]; and [returns], which says of the call of a command with its
    parameters whether it comes back to the shell.  That depends on the
    machine, not on the shell: [exec_command] does not come back when it
    reaches its [iretq], that is when [Shell.exec_command] ends in
    [Transferred], and the commands that stop the machine do not come back
    when the machine obeys. *)
Record terminal := {
  KEY_ENTER : Z;
  KEY_LEFT_SHIFT : Z;
  KEY_RIGHT_SHIFT : Z;
  KEY_UP : Z;
  KEY_DOWN : Z;
  KEY_BACKSPACE : Z;
  key_to_ascii : Z -> Ascii.ascii;
  shift_key_to_ascii : Z -> Ascii.ascii;
  get_column : list output -> Z;
  split : string -> list string;
  returns : command -> list string -> bool
}.

(** How a step of the shell ends: the loop of [start_shell] goes on, or a
    command that was called never comes back and the shell stays in the
    state of the call. *)
Inductive progress :=
| Continues (sh : shell)
| Leaves (sh : shell).

Definition shell_of (step : progress) : shell :=
  match step with Continues sh | Leaves sh => sh end.

(** Whether the call of a command comes back: [reboot_command] is declared
    [noreturn] and ends in [__builtin_unreachable], for the others [returns]
    says it. *)
Definition command_returns (t : terminal) (function : command) (params : list string)
    : bool :=
  match function with
  | reboot_command => false
  | _ => returns t function params
  end.

Definition show (outs : list output) (sh : shell) : shell :=
  {| history := history sh; history_index := history_index sh; shift := shift sh;
     current_input := current_input sh; screen := screen sh ++ outs |}.

Definition set_input (input : string) (sh : shell) : shell :=
  {| history := history sh; history_index := history_index sh; shift := shift sh;
     current_input := input; screen := screen sh |}.

Definition set_shift (b : bool) (sh : shell) : shell :=
  {| history := history sh; history_index := history_index sh; shift := b;
     current_input := current_input sh; screen := screen sh |}.

(** [std::string::pop_back]. *)
Fixpoint pop_back (s : string) : string :=
  match s with
  | EmptyString => EmptyString
  | String c EmptyString => EmptyString
  | String c rest => String c (pop_back rest)
  end.

(** [s += c]. *)
Definition push_back (s : string) (c : Ascii.ascii) : string :=
  (s +:+ String c EmptyString)%string.

(** [history_key]; [Enable] is the template argument, which the build sets
    from [CONFIG_HISTORY]. *)
Definition history_key (Enable : bool) (t : terminal) (key : Z) (sh : shell) : shell :=
  if negb Enable then sh
  else if 0 <? length (history sh) then
    let moved :=
      if (key =? KEY_UP t)%Z then
        if history_index sh =? 0 then None else Some (history_index sh - 1)
      else
        if history_index sh =? length (history sh) then None
        else Some (history_index sh + 1) in
    match moved with
    | None => sh
    | Some index =>
        let blanks := replicate (String.length (current_input sh)) (PrintChar " "%char) in
        let input :=
          if index <? length (history sh) then history sh !!! index
          else current_input sh in
        {| history := history sh; history_index := index; shift := shift sh;
           current_input := input;
           screen := screen sh ++ [SetColumn 6] ++ blanks ++ [SetColumn 6]
                            ++ [PrintStr input] |}
    end
  else sh.

(** [history_save]. *)
Definition history_save (Enable : bool) (sh : shell) : shell :=
  if negb Enable then sh
  else
    {| history := history sh ++ [current_input sh];
       history_index := length (history sh ++ [current_input sh]);
       shift := shift sh; current_input := current_input sh; screen := screen sh |}.

(** The loop over the table of [exec_shell_command]: the first entry whose
    name is [name]. *)
Fixpoint find_command (table : list (string * command)) (name : string)
    : option command :=
  match table with
  | [] => None
  | (command_name, function) :: rest =>
      if String.eqb name command_name then Some function
      else find_command rest name
  end.

(** [exec_shell_command]: the command that is found is called, and the
    function returns only when the call does. *)
Definition exec_shell_command (Enable : bool) (t : terminal) (sh : shell) : progress :=
  let sh := history_save Enable sh in
  let params := split t (current_input sh) in
  match find_command commands (params !!! 0) with
  | Some function =>
      let sh := show [Run function params] sh in
      if command_returns t function params then Continues sh else Leaves sh
  | None =>
      Continues
        (show [Printf ("The command " +:+ String (Ascii.ascii_of_nat 34) "%s"
                       +:+ String (Ascii.ascii_of_nat 34) " does not exist\n")
                      [Str (current_input sh)]] sh)
  end.

(** The body of the loop of [start_shell], for the key that
    [keyboard::get_char] returned.  After the key enter on a line that is not
    empty, what follows the call of [exec_shell_command] is reached only when
    the command comes back. *)
Definition shell_key (Enable : bool) (t : terminal) (key : Z) (sh : shell) : progress :=
  if negb (Z.land key 0x80 =? 0)%Z then
    let key := Z.land key (Z.lnot 0x80) in
    if ((key =? KEY_LEFT_SHIFT t) || (key =? KEY_RIGHT_SHIFT t))%Z
    then Continues (set_shift false sh) else Continues sh
  else if (key =? KEY_ENTER t)%Z then
    let sh := show [PrintLine EmptyString] sh in
    if 0 <? String.length (current_input sh) then
      match exec_shell_command Enable t sh with
      | Leaves sh => Leaves sh
      | Continues sh =>
          let sh := if negb (get_column t (screen sh) =? 0)%Z
                    then show [PrintLine EmptyString] sh else sh in
          let sh := set_input EmptyString sh in
          Continues (show [PrintStr "thor> "] sh)
      end
    else Continues (show [PrintStr "thor> "] sh)
  else if ((key =? KEY_LEFT_SHIFT t) || (key =? KEY_RIGHT_SHIFT t))%Z then
    Continues (set_shift true sh)
  else if ((key =? KEY_UP t) || (key =? KEY_DOWN t))%Z then
    Continues (history_key Enable t key sh)
  else if (key =? KEY_BACKSPACE t)%Z then
    if 0 <? String.length (current_input sh) then
      Continues (set_input (pop_back (current_input sh)) (show [PrintChar "008"%char] sh))
    else Continues sh
  else
    let qwertz_key :=
      if shift sh then shift_key_to_ascii t key else key_to_ascii t key in
    if negb (Ascii.eqb qwertz_key "000"%char) then
      Continues (show [PrintChar qwertz_key]
                      (set_input (push_back (current_input sh) qwertz_key) sh))
    else Continues sh.

(** The fields of [disks::file] that the commands read. *)
Record file := {
  file_name : string;
  hidden : bool;
  directory : bool;
  size : Z;
  created_day : Z; created_month : Z; created_year : Z;
  created_hour : Z; created_minutes : Z
}.

(** What the disk commands take from [disks.hpp], which is not among the
    sources: whether a disk and a partition are mounted, the files that
    [disks::ls] finds in a directory, the content of a file, the answers of
    [disks::mkdir], [disks::touch] and [disks::rm], what is known of the
    disks, and [parse]. *)
Record disks := {
  mounted_partition : option Z;
  mounted_disk : option Z;
  ls : list string -> list file;
  read_file : list string -> string -> string;
  mkdir : list string -> string -> bool;
  touch : list string -> string -> bool;
  rm : list string -> string -> bool;
  disk_exists : Z -> bool;
  disk_is_ata : Z -> bool;
  partition_exists : Z -> Z -> bool;
  parse : string -> Z
}.

Definition nothing_mounted (d : disks) : bool :=
  negb (bool_decide (is_Some (mounted_partition d)))
  || negb (bool_decide (is_Some (mounted_disk d))).

(** [find_file], on the files of the current directory. *)
Fixpoint find_file (files : list file) (name : string) : option file :=
  match files with
  | [] => None
  | f :: rest => if String.eqb (file_name f) name then Some f else find_file rest name
  end.

(** [cd_command]: the current directory after it, and what it prints. *)
Definition cd (d : disks) (params : list string) (current_directory : list string)
    : list string * list output :=
  if nothing_mounted d then (current_directory, [PrintLine "Nothing is mounted"])
  else if length params =? 1 then ([], [])
  else if String.eqb (params !!! 1) ".." then
    if 0 <? length current_directory then (removelast current_directory, [])
    else (current_directory, [])
  else
    match find_file (ls d current_directory) (params !!! 1) with
    | Some f =>
        if directory f then (current_directory ++ [params !!! 1], [])
        else (current_directory,
              [PrintStr "cd: Not a directory: "; PrintLine (params !!! 1)])
    | None =>
        (current_directory,
         [PrintStr "cd: No such file or directory: "; PrintLine (params !!! 1)])
    end.

(** [pwd_command]. *)
Definition pwd (d : disks) (current_directory : list string) : list output :=
  if nothing_mounted d then [PrintLine "Nothing is mounted"]
  else [PrintChar "/"%char]
       ++ List.concat (List.map (fun p => [PrintStr p; PrintChar "/"%char]) current_directory)
       ++ [PrintLine EmptyString].

(** [cat_command]. *)
Definition cat (d : disks) (params : list string) (current_directory : list string)
    : list output :=
  if nothing_mounted d then [PrintLine "Nothing is mounted"]
  else if length params =? 1 then [PrintLine "No file provided"]
  else
    match find_file (ls d current_directory) (params !!! 1) with
    | Some f =>
        if negb (directory f) then
          [PrintStr (read_file d current_directory (params !!! 1))]
        else [PrintStr "cd: Not a file: "; PrintLine (params !!! 1)]
    | None => [PrintStr "cd: No such file or directory: "; PrintLine (params !!! 1)]
    end.

(** [mkdir_command]. *)
Definition mkdir_cmd (d : disks) (params : list string) (current_directory : list string)
    : list output :=
  if nothing_mounted d then [PrintLine "Nothing is mounted"]
  else if length params =? 1 then [PrintLine "No directory provided"]
  else
    let directory_name := params !!! 1 in
    match find_file (ls d current_directory) directory_name with
    | Some _ =>
        [Printf "mkdir: Cannot create directory '%s': File exists\n" [Str directory_name]]
    | None =>
        [DiskMkdir directory_name]
        ++ (if negb (mkdir d current_directory directory_name)
            then [PrintLine "Directory creation failed"] else [])
    end.

(** [touch_command]. *)
Definition touch_cmd (d : disks) (params : list string) (current_directory : list string)
    : list output :=
  if nothing_mounted d then [PrintLine "Nothing is mounted"]
  else if length params =? 1 then [PrintLine "No file name provided"]
  else
    let file_name := params !!! 1 in
    match find_file (ls d current_directory) file_name with
    | Some _ => [Printf "touch: Cannot create file '%s': File exists\n" [Str file_name]]
    | None =>
        [DiskTouch file_name]
        ++ (if negb (touch d current_directory file_name)
            then [PrintLine "File creation failed"] else [])
    end.

(** [rm_command]. *)
Definition rm_cmd (d : disks) (params : list string) (current_directory : list string)
    : list output :=
  if nothing_mounted d then [PrintLine "Nothing is mounted"]
  else if length params =? 1 then [PrintLine "No file name provided"]
  else
    let file_name := params !!! 1 in
    match find_file (ls d current_directory) file_name with
    | None =>
        [Printf "rm: Cannot delete file '%s': No such file or directory\n" [Str file_name]]
    | Some _ =>
        [DiskRm file_name]
        ++ (if negb (rm d current_directory file_name)
            then [PrintLine "File removal failed"] else [])
    end.

(** The loop of [ls_command] that reads the options: the flags
    [show_hidden_files] and [list] after the parameters [params]. *)
Fixpoint ls_options (params : list string) (show_hidden_files list : bool)
    : bool * bool :=
  match params with
  | [] => (show_hidden_files, list)
  | param :: rest =>
      if String.eqb param "-a" then ls_options rest true list
      else if String.eqb param "-l" then ls_options rest show_hidden_files true
      else ls_options rest show_hidden_files list
  end.

(** What the loop of [ls_command] prints for one file. *)
Definition ls_row (list : bool) (f : file) : Datatypes.list output :=
  if list then
    [PrintStr (if directory f then " d " else " f ");
     PrintNum (size f); PrintChar " "%char;
     PrintNum (created_day f); PrintChar "."%char;
     PrintNum (created_month f); PrintChar "."%char;
     PrintNum (1980 + created_year f); PrintChar " "%char;
     PrintNum (created_hour f); PrintChar ":"%char;
     PrintNum (created_minutes f); PrintChar " "%char;
     PrintLine (file_name f)]
  else [PrintStr (file_name f); PrintChar " "%char].

(** The loop of [ls_command] over the files: what it prints, and [total]. *)
Fixpoint ls_files (files : list file) (show_hidden_files list : bool) (total : nat)
    : Datatypes.list output * nat :=
  match files with
  | [] => ([], total)
  | f :: rest =>
      if hidden f && negb show_hidden_files then
        ls_files rest show_hidden_files list total
      else
        let '(outs, total) := ls_files rest show_hidden_files list (S total) in
        (ls_row list f ++ outs, total)
  end.

(** [ls_command]. *)
Definition ls_cmd (d : disks) (params : list string) (current_directory : list string)
    : list output :=
  if nothing_mounted d then [PrintLine "Nothing is mounted"]
  else
    let '(show_hidden_files, list) :=
      if 1 <? length params then ls_options (List.tl params) false false
      else (false, false) in
    let '(outs, total) := ls_files (ls d current_directory) show_hidden_files list 0 in
    outs ++ (if negb list then [PrintChar "010"%char] else [])
         ++ [Printf "Total: %u\n" [Num (Z.of_nat total)]].

(** [mount_command]. *)
Definition mount_cmd (d : disks) (params : list string) : list output :=
  if length params =? 1 then
    match mounted_disk d, mounted_partition d with
    | Some md, Some mp => [Printf "%u:%u is mounted\n" [Num md; Num mp]]
    | _, _ => [PrintLine "Nothing is mounted"]
    end
  else if negb (length params =? 3) then
    [PrintLine "mount: Not enough params: mount disk partition"]
  else
    let disk_uuid := parse d (params !!! 1) in
    let partition_uuid := parse d (params !!! 2) in
    if disk_exists d disk_uuid then
      if negb (disk_is_ata d disk_uuid) then [PrintLine "Only ATA disks are supported"]
      else if partition_exists d disk_uuid partition_uuid then
        [DiskMount disk_uuid partition_uuid]
      else [Printf "Partition %u does not exist\n" [Num partition_uuid]]
    else [Printf "Disk %u does not exist\n" [Num disk_uuid]].

(** [unmount_command]. *)
Definition unmount_cmd (d : disks) : list output :=
  if nothing_mounted d then [PrintLine "Nothing is mounted"] else [DiskUnmount].

(** Case analysis on the membership of an output in a list that is written
    out. *)
Ltac in_outputs :=
  repeat match goal with
         | H : _ ∈ _ :: _ |- _ => apply elem_of_cons in H as [H | H]
         | H : _ ∈ [] |- _ => apply elem_of_nil in H; destruct H
         | H : _ ∈ _ ++ _ |- _ => apply elem_of_app in H as [H | H]
         end.

(** ** Sample values *)

Definition sample_file (name : string) (dir hide : bool) : file :=
  {| file_name := name; hidden := hide; directory := dir; size := 512;
     created_day := 1; created_month := 2; created_year := 34;
     created_hour := 12; created_minutes := 30 |}.

(** A mounted partition whose every directory holds a directory [bin], a
    file [notes] and a hidden file [.profile]. *)
Definition sample_disks : disks :=
  {| mounted_partition := Some 1%Z; mounted_disk := Some 0%Z;
     ls := fun _ => [sample_file "bin" true false; sample_file "notes" false false;
                     sample_file ".profile" false true];
     read_file := fun _ _ => "text"%string;
     mkdir := fun _ _ => true; touch := fun _ _ => true; rm := fun _ _ => false;
     disk_exists := fun uuid => (uuid =? 0)%Z;
     disk_is_ata := fun _ => true;
     partition_exists := fun _ uuid => (uuid =? 1)%Z;
     parse := fun s => if String.eqb s "1" then 1%Z else 0%Z |}.

(** The words of [s] between single spaces; [current] is the word being
    read. *)
Fixpoint words (s : string) (current : string) : list string :=
  match s with
  | EmptyString => [current]
  | String c rest =>
      if Ascii.eqb c " "%char then current :: words rest EmptyString
      else words rest (push_back current c)
  end.

(** A keyboard with the scan codes of a PC keyboard, on which only the key
    [0x1E] gives a character: [a], or [A] with shift; on this machine the
    shutdown works and every program that [exec] is given starts. *)
Definition sample_terminal : terminal :=
  {| KEY_ENTER := 0x1C; KEY_LEFT_SHIFT := 0x2A; KEY_RIGHT_SHIFT := 0x36;
     KEY_UP := 0x48; KEY_DOWN := 0x50; KEY_BACKSPACE := 0x0E;
     key_to_ascii := fun key => if (key =? 0x1E)%Z then "a"%char else "000"%char;
     shift_key_to_ascii := fun key => if (key =? 0x1E)%Z then "A"%char else "000"%char;
     get_column := fun _ => 0%Z;
     split := fun s => words s EmptyString;
     returns := fun function _ =>
       match function with shutdown_command | exec_command => false | _ => true end |}.

(** A shell in which [ls] and [pwd] were run and [cd] is being typed. *)
Definition sample_shell : shell :=
  {| history := ["ls"; "pwd"]%string; history_index := 2; shift := false;
     current_input := "cd"%string; screen := [PrintStr "thor> "; PrintStr "cd"] |}.

(** The same shell with [reboot] typed. *)
Definition reboot_typed : shell := set_input "reboot" sample_shell.

End Commands.

(** ** Properties of the receive path *)

Module NicProofs.
Import Rtl8139.

Lemma land_clear_low2 (a : Z) : Z.land a (wrap64 (Z.lnot 3)) mod 4 = 0.
Proof.
  change 4 with (2 ^ 2). rewrite <- Z.land_ones by lia.
  rewrite <- Z.land_assoc.
  replace (Z.land (wrap64 (Z.lnot 3)) (Z.ones 2)) with 0 by reflexivity.
  apply Z.land_0_r.
Qed.

Lemma advance_aligned (cur_rx packet_length : Z) :
  advance cur_rx packet_length mod 4 = 0.
Proof. apply land_clear_low2. Qed.

Lemma land_mask_round (x : Z) :
  0 <= x < 2 ^ 64 -> Z.land x (wrap64 (Z.lnot 3)) = x / 4 * 4.
Proof.
  intros H.
  replace (x / 4 * 4) with (Z.shiftl (Z.shiftr x 2) 2)
    by (rewrite Z.shiftl_mul_pow2, Z.shiftr_div_pow2 by lia; reflexivity).
  apply Z.bits_inj'. intros n Hn.
  rewrite Z.land_spec.
  destruct (Z.lt_ge_cases n 2) as [Hlt|Hge].
  - rewrite Z.shiftl_spec_low by lia.
    assert (Hc : n = 0 \/ n = 1) by lia.
    destruct Hc as [-> | ->]; apply andb_false_r.
  - rewrite Z.shiftl_spec_high by lia.
    rewrite Z.shiftr_spec by lia.
    replace (n - 2 + 2) with n by lia.
    destruct (Z.lt_ge_cases n 64) as [Hn64|Hn64].
    + unfold wrap64. rewrite Z.mod_pow2_bits_low by lia.
      rewrite Z.lnot_spec by lia.
      change 3 with (Z.ones 2). rewrite Z.ones_spec_high by lia.
      apply andb_true_r.
    + assert (Hx : Z.testbit x n = false).
      { destruct (Z.eq_dec x 0) as [->|Hx]; [apply Z.testbit_0_l|].
        apply Z.bits_above_log2; [lia|].
        apply Z.log2_lt_pow2; [lia|].
        apply Z.lt_le_trans with (2 ^ 64); [lia|].
        apply Z.pow_le_mono_r; lia. }
      rewrite Hx. reflexivity.
Qed.

(** Without overflow of the 64-bit cursor the advance is the first multiple
    of four at or behind the end of the frame. *)
Lemma advance_round_up (cur_rx packet_length : Z) :
  0 <= cur_rx + packet_length + 7 < 2 ^ 64 ->
  advance cur_rx packet_length = (cur_rx + packet_length + 7) / 4 * 4.
Proof.
  intros H. unfold advance.
  replace (cur_rx + packet_length + 4 + 3) with (cur_rx + packet_length + 7) by lia.
  unfold wrap64 at 1. rewrite (Z.mod_small _ _ H).
  apply land_mask_round, H.
Qed.

(** The locals of one iteration, read off the loop body. *)
Lemma rx_body_cursor desc m cur : it_cursor (rx_body desc m cur) = cur.
Proof. unfold rx_body. repeat case_match; reflexivity. Qed.

Lemma rx_body_offset desc m cur : it_offset (rx_body desc m cur) = cur mod 0x3000.
Proof. unfold rx_body. repeat case_match; reflexivity. Qed.

Lemma rx_body_status desc m cur :
  it_status (rx_body desc m cur) = read_u32 m (buffer_rx desc + cur mod 0x3000).
Proof. unfold rx_body. repeat case_match; reflexivity. Qed.

Lemma rx_body_length desc m cur :
  it_length (rx_body desc m cur)
  = Z.shiftr (read_u32 m (buffer_rx desc + cur mod 0x3000)) 16.
Proof. unfold rx_body. repeat case_match; reflexivity. Qed.

Lemma rx_body_next desc m cur :
  it_next (rx_body desc m cur) = advance cur (it_length (rx_body desc m cur)).
Proof. unfold rx_body. repeat case_match; reflexivity. Qed.

Lemma rx_body_forwarded desc m cur :
  it_forwarded (rx_body desc m cur) =
  let it := rx_body desc m cur in
  if negb (Z.land (it_status it) rx_error_mask =? 0) then None
  else if it_length it =? 0 then None
  else Some (copy_out m (buffer_rx desc + it_offset it + 4)
                      (wrap32 (it_length it - 4)),
             wrap32 (it_length it - 4)).
Proof.
  cbv zeta. rewrite rx_body_status, rx_body_length, rx_body_offset.
  unfold rx_body. repeat case_match; simplify_eq; reflexivity.
Qed.

Lemma rx_body_events desc m cur :
  it_events (rx_body desc m cur) =
  let it := rx_body desc m cur in
  (if negb (Z.land (it_status it) rx_error_mask =? 0) then
     [Log "rtl8139: Packet Error"]
   else if it_length it =? 0 then [Log "rtl8139: Packet Error Length = 0"]
   else [Log "rtl8139: Packet OK";
         Decode (copy_out m (buffer_rx desc + it_offset it + 4)
                          (wrap32 (it_length it - 4)))
                (wrap32 (it_length it - 4))])
  ++ [OutWord (iobase desc + RX_BUF_PTR) (wrap16 (it_next it - 0x10));
      Log "rtl8139: Packet Handled"].
Proof.
  cbv zeta. rewrite rx_body_status, rx_body_length, rx_body_offset, rx_body_next,
    rx_body_length.
  unfold rx_body. repeat case_match; simplify_eq; reflexivity.
Qed.

Lemma read_u32_range m a : 0 <= read_u32 m a < 2 ^ 32.
Proof.
  unfold read_u32, wrap8.
  pose proof (Z.mod_pos_bound (m a) (2 ^ 8) ltac:(lia)).
  pose proof (Z.mod_pos_bound (m (a + 1)) (2 ^ 8) ltac:(lia)).
  pose proof (Z.mod_pos_bound (m (a + 2)) (2 ^ 8) ltac:(lia)).
  pose proof (Z.mod_pos_bound (m (a + 3)) (2 ^ 8) ltac:(lia)).
  lia.
Qed.

Lemma rx_body_length_range desc m cur :
  0 <= it_length (rx_body desc m cur) < 2 ^ 16.
Proof.
  rewrite rx_body_length. rewrite Z.shiftr_div_pow2 by lia.
  pose proof (read_u32_range m (buffer_rx desc + cur mod 0x3000)) as H.
  split.
  - apply Z.div_pos; lia.
  - apply Z.div_lt_upper_bound; lia.
Qed.

(** *** The drain loop *)

Lemma last_cons_default {A} (x d : A) (l : list A) :
  List.last (x :: l) d = List.last l x.
Proof.
  revert x d. induction l as [|y l IH]; intros x d; [reflexivity|].
  change (List.last (y :: l) d = List.last (y :: l) x).
  rewrite !IH. reflexivity.
Qed.

Lemma final_cursor_cons cur it its :
  final_cursor cur (it :: its) = final_cursor (it_next it) its.
Proof. unfold final_cursor. simpl List.map. apply last_cons_default. Qed.

Lemma final_cursor_app cur its more :
  final_cursor cur (its ++ more) = final_cursor (final_cursor cur its) more.
Proof.
  revert cur. induction its as [|it its IH]; intros cur; [reflexivity|].
  rewrite <- app_comm_cons, !final_cursor_cons. apply IH.
Qed.

Lemma chained_app start its more :
  chained start its -> chained (final_cursor start its) more ->
  chained start (its ++ more).
Proof.
  revert start. induction its as [|it its IH]; intros start; simpl.
  - intros _ H. exact H.
  - intros [Hc Hr] H. split; [exact Hc|].
    apply IH; [exact Hr|]. rewrite final_cursor_cons in H. exact H.
Qed.

Lemma rx_body_ok desc m cur : cur mod 4 = 0 -> iteration_ok (rx_body desc m cur).
Proof.
  intros Hc. unfold iteration_ok.
  rewrite rx_body_cursor, rx_body_next, rx_body_offset.
  repeat split; try exact Hc; try apply advance_aligned;
    apply Z.mod_pos_bound; lia.
Qed.

Lemma drain_ok desc polls cur :
  cur mod 4 = 0 -> Forall iteration_ok (drain desc polls cur).
Proof.
  revert cur. induction polls as [|poll rest IH]; intros cur Hc; simpl.
  - constructor.
  - destruct (Z.land (cmd poll) CMD_NOT_EMPTY =? 0); [|constructor].
    constructor; [apply rx_body_ok, Hc|].
    apply IH. rewrite rx_body_next. apply advance_aligned.
Qed.

Lemma drain_chained desc polls cur : chained cur (drain desc polls cur).
Proof.
  revert cur. induction polls as [|poll rest IH]; intros cur; simpl; [exact I|].
  destruct (Z.land (cmd poll) CMD_NOT_EMPTY =? 0); simpl; [|exact I].
  split; [apply rx_body_cursor | apply IH].
Qed.

Lemma final_cursor_aligned cur its :
  cur mod 4 = 0 -> Forall iteration_ok its -> final_cursor cur its mod 4 = 0.
Proof.
  revert cur. induction its as [|it its IH]; intros cur Hc Hall; [exact Hc|].
  rewrite final_cursor_cons. inversion Hall as [|? ? Hit Hrest]; subst.
  apply IH; [|exact Hrest]. apply Hit.
Qed.

(** One interrupt: the handler keeps the ring and the register window, its
    iterations are those of the drain loop from the stored cursor, and it
    stores the cursor that the last iteration left. *)
Lemma packet_handler_spec desc status polls :
  let '(desc', its, _) := packet_handler desc status polls in
  buffer_rx desc' = buffer_rx desc
  /\ iobase desc' = iobase desc
  /\ cur_rx desc' = final_cursor (cur_rx desc) its
  /\ chained (cur_rx desc) its
  /\ (cur_rx desc mod 4 = 0 -> Forall iteration_ok its).
Proof.
  unfold packet_handler.
  destruct (negb (Z.land status RX_OK =? 0)); simpl.
  - repeat split; try reflexivity; [apply drain_chained | apply drain_ok].
  - repeat split; try reflexivity. intros _. constructor.
Qed.

Lemma handle_all_spec desc irqs :
  cur_rx desc mod 4 = 0 ->
  let '(final, its) := handle_all desc irqs in
  cur_rx final = final_cursor (cur_rx desc) its
  /\ chained (cur_rx desc) its
  /\ Forall iteration_ok its.
Proof.
  revert desc. induction irqs as [|[status polls] rest IH]; intros desc Hc; simpl.
  - repeat split. constructor.
  - pose proof (packet_handler_spec desc status polls) as Hh.
    destruct (packet_handler desc status polls) as [[desc' its] evs].
    destruct Hh as (_ & _ & Hcur & Hch & Hok). specialize (Hok Hc).
    assert (Hc' : cur_rx desc' mod 4 = 0)
      by (rewrite Hcur; apply final_cursor_aligned; assumption).
    specialize (IH desc' Hc').
    destruct (handle_all desc' rest) as [final more].
    destruct IH as (Hf & Hch' & Hok').
    rewrite final_cursor_app, <- Hcur. repeat split.
    + exact Hf.
    + apply chained_app; [exact Hch|]. rewrite <- Hcur. exact Hch'.
    + apply Forall_app. split; assumption.
Qed.

Lemma init_driver_desc inp m r :
  init_driver inp m = Some r ->
  cur_rx (desc_of r) = 0
  /\ buffer_rx (desc_of r) = rx_virt inp
  /\ memory_of r = fill_n (rx_virt inp) 0x3000 0 m.
Proof.
  unfold init_driver. destruct (wait_reset (reset_polls inp)); [|discriminate].
  intros [= <-]. simpl. repeat split.
Qed.

(** [init_driver] returns as soon as the device clears the reset bit. *)
Lemma init_driver_returns inp m :
  Exists (fun c => Z.land c 0x10 = 0) (reset_polls inp) ->
  is_Some (init_driver inp m).
Proof.
  intros H. unfold init_driver.
  assert (Hw : wait_reset (reset_polls inp) = true).
  { induction H as [c rest Hc | c rest _ IH]; simpl.
    - rewrite Hc. reflexivity.
    - destruct (Z.land c 16 =? 0); [reflexivity | exact IH]. }
  rewrite Hw. eexists. reflexivity.
Qed.

(** *** Forwarding and dropping of frames *)

Lemma copy_out_length m source n : 0 <= n -> Z.of_nat (length (copy_out m source n)) = n.
Proof.
  intros H. unfold copy_out. rewrite length_map, length_seq. lia.
Qed.

Lemma copy_out_lookup m source n i :
  0 <= i < n -> copy_out m source n !! Z.to_nat i = Some (m (source + i)).
Proof.
  intros H. unfold copy_out.
  rewrite list_lookup_fmap, lookup_seq_lt by lia.
  simpl. f_equal. f_equal. lia.
Qed.


(** The packet that a frame without error bit and with a length of at least
    4 gives to the decoder. *)
Lemma forwarded_of_valid desc m cur :
  let it := rx_body desc m cur in
  Z.land (it_status it) rx_error_mask = 0 ->
  4 <= it_length it ->
  it_forwarded it
  = Some (copy_out m (buffer_rx desc + it_offset it + 4) (it_length it - 4),
          it_length it - 4)
  /\ Decode (copy_out m (buffer_rx desc + it_offset it + 4) (it_length it - 4))
            (it_length it - 4) ∈ it_events it.
Proof.
  intros it Hst Hlen. subst it.
  pose proof (rx_body_length_range desc m cur) as Hr.
  assert (Hw : wrap32 (it_length (rx_body desc m cur) - 4)
               = it_length (rx_body desc m cur) - 4)
    by (unfold wrap32; apply Z.mod_small; lia).
  assert (Hz : (it_length (rx_body desc m cur) =? 0) = false) by (apply Z.eqb_neq; lia).
  split.
  - rewrite rx_body_forwarded. cbv zeta. rewrite Hst, Hz, Hw. reflexivity.
  - rewrite rx_body_events. cbv zeta. rewrite Hst, Hz, Hw. simpl.
    apply elem_of_cons. right. apply elem_of_cons. left. reflexivity.
Qed.

(** C5, as the handler does it: for every frame without an error status bit
    whose header length is at least 4, the packet given to the link-layer
    decoder has the length [header length - 4], and its bytes are the bytes
    that follow the header in memory; when the length is above 4 the first of
    them is the byte at [offset + 4]. *)
Theorem valid_frame_forwarded desc m cur :
  let it := rx_body desc m cur in
  Z.land (it_status it) rx_error_mask = 0 ->
  4 <= it_length it ->
  exists packet_buffer,
    it_forwarded it = Some (packet_buffer, it_length it - 4)
    /\ Decode packet_buffer (it_length it - 4) ∈ it_events it
    /\ Z.of_nat (length packet_buffer) = it_length it - 4
    /\ (forall i, 0 <= i < it_length it - 4 ->
          packet_buffer !! Z.to_nat i = Some (m (buffer_rx desc + it_offset it + 4 + i)))
    /\ (4 < it_length it ->
          packet_buffer !! 0%nat = Some (m (buffer_rx desc + it_offset it + 4))).
Proof.
  intros it Hst Hlen.
  destruct (forwarded_of_valid desc m cur Hst Hlen) as [Hf Hd]. fold it in Hf, Hd.
  exists (copy_out m (buffer_rx desc + it_offset it + 4) (it_length it - 4)).
  split_and!.
  - exact Hf.
  - exact Hd.
  - apply copy_out_length. lia.
  - intros i Hi. apply copy_out_lookup. exact Hi.
  - intros Hgt. change 0%nat with (Z.to_nat 0).
    rewrite copy_out_lookup by lia. f_equal. f_equal. lia.
Qed.

Lemma valid_frame_forwarded_witness :
  let it := rx_body sample_desc (ring_with_header 0x100000 1 64) 0 in
  exists packet_buffer,
    it_forwarded it = Some (packet_buffer, it_length it - 4)
    /\ Decode packet_buffer (it_length it - 4) ∈ it_events it
    /\ Z.of_nat (length packet_buffer) = it_length it - 4
    /\ (forall i, 0 <= i < it_length it - 4 ->
          packet_buffer !! Z.to_nat i
          = Some (ring_with_header 0x100000 1 64 (buffer_rx sample_desc + it_offset it + 4 + i)))
    /\ (4 < it_length it ->
          packet_buffer !! 0%nat
          = Some (ring_with_header 0x100000 1 64 (buffer_rx sample_desc + it_offset it + 4))).
Proof.
  apply (valid_frame_forwarded sample_desc (ring_with_header 0x100000 1 64) 0).
  - vm_compute. reflexivity.
  - vm_compute. discriminate.
Defined.

(** C5 fails for the header lengths 1, 2 and 3: a frame with the status
    "receive OK" and the length 2 is given to the decoder with the length
    [2 - 4] on 32 bits, 4294967294, and not with a length of [2 - 4]. *)
Lemma short_frame_length_wraps :
  let it := rx_body sample_desc (ring_with_header 0x100000 1 2) 0 in
  Z.land (it_status it) rx_error_mask = 0
  /\ it_length it = 2
  /\ snd <$> it_forwarded it = Some 4294967294
  /\ snd <$> it_forwarded it <> Some (it_length it - 4).
Proof.
  cbv zeta. rewrite rx_body_forwarded. cbv zeta.
  assert (Hs : it_status (rx_body sample_desc (ring_with_header 0x100000 1 2) 0) = 131073)
    by (rewrite rx_body_status; reflexivity).
  assert (Hl : it_length (rx_body sample_desc (ring_with_header 0x100000 1 2) 0) = 2)
    by (rewrite rx_body_length; reflexivity).
  rewrite Hs, Hl. repeat split; discriminate.
Qed.



(** *** From initialization on *)

(** C7: from the cursor 0 that [init_driver] stores, over any interrupts,
    any polls of the device and any ring contents, the cursor is a multiple
    of 4 before and after every iteration of the drain loop and at the end,
    every iteration starts at the cursor the one before left, and the offset
    at which an iteration reads the ring is its cursor modulo 0x3000 (below
    0x3000): the header is read at [buffer_rx + cursor mod 0x3000]. *)
Theorem cursor_aligned_offset_wrapped inp m r irqs :
  init_driver inp m = Some r ->
  let '(final, its) := handle_all (desc_of r) irqs in
  cur_rx final mod 4 = 0
  /\ cur_rx final = final_cursor 0 its
  /\ chained 0 its
  /\ Forall (fun it => it_cursor it mod 4 = 0
                      /\ it_next it mod 4 = 0
                      /\ it_offset it = it_cursor it mod 0x3000
                      /\ 0 <= it_offset it < 0x3000) its
  /\ (forall desc ring cur,
        it_status (rx_body desc ring cur)
        = read_u32 ring (buffer_rx desc + cur mod 0x3000)).
Proof.
  intros Hinit. apply init_driver_desc in Hinit as (Hcur & _ & _).
  assert (Hc : cur_rx (desc_of r) mod 4 = 0) by (rewrite Hcur; reflexivity).
  pose proof (handle_all_spec (desc_of r) irqs Hc) as H.
  destruct (handle_all (desc_of r) irqs) as [final its].
  destruct H as (Hf & Hch & Hok). rewrite Hcur in Hf, Hch.
  repeat split.
  - rewrite Hf. apply final_cursor_aligned; [reflexivity | exact Hok].
  - exact Hf.
  - exact Hch.
  - exact Hok.
  - intros desc ring cur. apply rx_body_status.
Qed.

Lemma cursor_aligned_offset_wrapped_witness :
  exists r,
    init_driver sample_input (fun _ => 0xAA) = Some r
    /\ let '(final, its) := handle_all (desc_of r) sample_irqs in
       cur_rx final mod 4 = 0
       /\ cur_rx final = final_cursor 0 its
       /\ chained 0 its
       /\ Forall (fun it => it_cursor it mod 4 = 0
                           /\ it_next it mod 4 = 0
                           /\ it_offset it = it_cursor it mod 0x3000
                           /\ 0 <= it_offset it < 0x3000) its
       /\ (forall desc ring cur,
             it_status (rx_body desc ring cur)
             = read_u32 ring (buffer_rx desc + cur mod 0x3000)).
Proof.
  eexists. split; [reflexivity|].
  apply (cursor_aligned_offset_wrapped sample_input (fun _ => 0xAA) _ sample_irqs).
  reflexivity.
Defined.

Example sample_irqs_cursor :
  cur_rx (fst (handle_all sample_desc sample_irqs)) = 1640.
Proof. reflexivity. Qed.

(** C8: after [init_driver] the cursor is 0 and the 0x3000 bytes of the
    mapped ring (three pages) are zero, the memory around them untouched;
    an interrupt with "receive OK" that finds one valid frame of length 64 in
    the ring then leaves the cursor at 68 and writes 68 - 16 = 52 to the
    read-pointer register. *)
Theorem init_then_one_frame inp m r status poll polls :
  init_driver inp m = Some r ->
  Z.land status RX_OK <> 0 ->
  Z.land (cmd poll) CMD_NOT_EMPTY = 0 ->
  Z.land (read_u32 (ring poll) (buffer_rx (desc_of r))) rx_error_mask = 0 ->
  Z.shiftr (read_u32 (ring poll) (buffer_rx (desc_of r))) 16 = 64 ->
  Z.land (hd 1 (List.map cmd polls)) CMD_NOT_EMPTY <> 0 ->
  cur_rx (desc_of r) = 0
  /\ MapPages (buffer_rx (desc_of r)) (phys_buffer_rx (desc_of r)) 3 ∈ init_events r
  /\ (forall i, 0 <= i < 0x3000 -> memory_of r (buffer_rx (desc_of r) + i) = 0)
  /\ (forall a, ~ (buffer_rx (desc_of r) <= a < buffer_rx (desc_of r) + 0x3000) ->
        memory_of r a = m a)
  /\ let '(desc', its, evs) := packet_handler (desc_of r) status (poll :: polls) in
     cur_rx desc' = 68
     /\ List.map it_offset its = [0]
     /\ (exists packet_buffer, List.map it_forwarded its = [Some (packet_buffer, 60)])
     /\ OutWord (iobase (desc_of r) + RX_BUF_PTR) 52 ∈ evs.
Proof.
  intros Hinit Hst Hcmd Herr Hlen Hend.
  pose proof (init_driver_desc _ _ _ Hinit) as (Hcur & Hbuf & Hmem).
  assert (Hmap : MapPages (buffer_rx (desc_of r)) (phys_buffer_rx (desc_of r)) 3
                 ∈ init_events r).
  { revert Hinit. unfold init_driver.
    destruct (wait_reset (reset_polls inp)); [|discriminate].
    intros [= <-]. simpl.
    apply list_elem_of_In. simpl. do 8 right. left. reflexivity. }
  repeat split; [exact Hcur | exact Hmap | | |].
  - intros i Hi. rewrite Hmem, Hbuf. unfold fill_n.
    rewrite bool_decide_eq_true_2 by lia. reflexivity.
  - intros a Ha. rewrite Hmem. rewrite Hbuf in Ha. unfold fill_n.
    rewrite bool_decide_eq_false_2 by exact Ha. reflexivity.
  - unfold packet_handler.
    apply Z.eqb_neq in Hst. rewrite Hst. simpl negb. cbv iota.
    assert (Hdrain : drain (desc_of r) (poll :: polls) (cur_rx (desc_of r))
                     = [rx_body (desc_of r) (ring poll) 0]).
    { simpl. rewrite Hcmd, Hcur. simpl. f_equal.
      destruct polls as [|next rest]; [reflexivity|]. simpl in Hend |- *.
      apply Z.eqb_neq in Hend. rewrite Hend. reflexivity. }
    rewrite Hdrain.
    pose proof (rx_body_length (desc_of r) (ring poll) 0) as Hit_len.
    pose proof (rx_body_status (desc_of r) (ring poll) 0) as Hit_st.
    change (0 mod 12288) with 0 in Hit_len, Hit_st.
    rewrite Z.add_0_r in Hit_len, Hit_st.
    rewrite Hlen in Hit_len.
    assert (Hvalid : Z.land (it_status (rx_body (desc_of r) (ring poll) 0))
                       rx_error_mask = 0)
      by (rewrite Hit_st; exact Herr).
    pose proof (rx_body_next (desc_of r) (ring poll) 0) as Hnext.
    rewrite Hit_len in Hnext. change (advance 0 64) with 68 in Hnext.
    repeat split.
    + cbn [cur_rx]. unfold final_cursor. simpl. exact Hnext.
    + simpl. rewrite rx_body_offset. reflexivity.
    + destruct (forwarded_of_valid (desc_of r) (ring poll) 0 Hvalid) as [Hf _]; [lia|].
      eexists. simpl. rewrite Hf, Hit_len. reflexivity.
    + apply elem_of_app. right. apply elem_of_app. right.
      simpl. rewrite app_nil_r, rx_body_events. cbv zeta.
      rewrite Hnext. apply elem_of_app. right.
      apply elem_of_cons. left. reflexivity.
Qed.

Lemma init_then_one_frame_witness :
  exists r,
    init_driver sample_input (fun _ => 0xAA) = Some r
    /\ cur_rx (desc_of r) = 0
    /\ MapPages (buffer_rx (desc_of r)) (phys_buffer_rx (desc_of r)) 3 ∈ init_events r
    /\ (forall i, 0 <= i < 0x3000 -> memory_of r (buffer_rx (desc_of r) + i) = 0)
    /\ (forall a, ~ (buffer_rx (desc_of r) <= a < buffer_rx (desc_of r) + 0x3000) ->
          memory_of r a = (fun _ => 0xAA) a)
    /\ let '(desc', its, evs) :=
         packet_handler (desc_of r) 0x01
           ({| cmd := 0; ring := ring_with_header 0x100000 1 64 |}
            :: [{| cmd := 1; ring := fun _ => 0 |}]) in
       cur_rx desc' = 68
       /\ List.map it_offset its = [0]
       /\ (exists packet_buffer, List.map it_forwarded its = [Some (packet_buffer, 60)])
       /\ OutWord (iobase (desc_of r) + RX_BUF_PTR) 52 ∈ evs.
Proof.
  eexists. split; [reflexivity|].
  apply (init_then_one_frame sample_input (fun _ => 0xAA) _ 0x01
           {| cmd := 0; ring := ring_with_header 0x100000 1 64 |}
           [{| cmd := 1; ring := fun _ => 0 |}]).
  - reflexivity.
  - vm_compute. discriminate.
  - reflexivity.
  - reflexivity.
  - reflexivity.
  - vm_compute. discriminate.
Defined.

End NicProofs.

(** ** Properties of the loader *)

Module LoaderProofs.
Import Shell.

(** *** The external services *)

Lemma emit_trace e k : trace (emit e k) = trace k ++ [e].
Proof. reflexivity. Qed.

Lemma k_malloc_spec bytes k :
  let '(memory, k') := k_malloc bytes k in
  memory = hd 0 (malloc_script k)
  /\ trace k' = trace k ++ [Malloc bytes memory]
  /\ page_table k' = page_table k
  /\ map_script k' = map_script k
  /\ heap k' = (if memory =? 0 then heap k else {[memory]} ∪ heap k).
Proof. unfold k_malloc. simpl. repeat split. Qed.

Lemma map_pages_spec virt phys pages flags k :
  let '(ok, k') := map_pages virt phys pages flags k in
  ok = hd true (map_script k)
  /\ trace k' = trace k ++ [MapPages virt phys pages flags ok]
  /\ heap k' = heap k
  /\ (ok = false -> page_table k' = page_table k).
Proof.
  unfold map_pages. simpl. repeat split.
  intros ->. reflexivity.
Qed.

Lemma unmap_pages_spec virt pages k :
  let '(ok, k') := unmap_pages virt pages k in
  trace k' = trace k ++ [UnmapPages virt pages ok]
  /\ heap k' = heap k.
Proof. unfold unmap_pages. simpl. repeat split. Qed.

(** *** One iteration of [release_segments] *)

Lemma release_segment_empty p p_header allocated_segments k :
  allocated_segments !!! p = 0 ->
  release_segment p p_header allocated_segments k = k.
Proof. intros H. unfold release_segment. rewrite H. reflexivity. Qed.

Lemma release_segment_handle p p_header allocated_segments k :
  allocated_segments !!! p <> 0 ->
  let a := allocated_segments !!! p in
  let k' := release_segment p p_header allocated_segments k in
  (exists ok, trace k' = trace k ++ release_events p_header a ok)
  /\ heap k' = heap k ∖ {[a]}.
Proof.
  intros H a k'. subst a k'. unfold release_segment.
  apply Z.eqb_neq in H. rewrite H. simpl negb. cbv iota.
  unfold unmap_pages, release_events. simpl.
  destruct (hd true (unmap_script k)); simpl; split; try reflexivity.
  - exists true. rewrite <- app_assoc. reflexivity.
  - exists false. rewrite <- !app_assoc. reflexivity.
Qed.

(** *** The loop of [release_segments] *)

Lemma release_from_trace p headers allocated_segments k :
  trace (release_from p headers allocated_segments k)
  = trace k ++ release_trace p headers allocated_segments (unmap_script k).
Proof.
  revert p k. induction headers as [|p_header rest IH]; intros p k; simpl.
  - rewrite app_nil_r. reflexivity.
  - rewrite IH. unfold release_segment.
    destruct (allocated_segments !!! p =? 0) eqn:Hz; simpl; [reflexivity|].
    unfold release_events.
    destruct (hd true (unmap_script k)); simpl; rewrite <- !app_assoc; reflexivity.
Qed.

Lemma release_from_heap_subseteq p headers allocated_segments k :
  heap (release_from p headers allocated_segments k) ⊆ heap k.
Proof.
  revert p k. induction headers as [|p_header rest IH]; intros p k; simpl; [done|].
  etrans; [apply IH|].
  destruct (Z.eq_dec (allocated_segments !!! p) 0) as [Hz|Hz].
  - rewrite release_segment_empty by exact Hz. done.
  - destruct (release_segment_handle p p_header allocated_segments k Hz) as [_ ->].
    intros x Hx. apply elem_of_difference in Hx as [Hx _]. exact Hx.
Qed.

Lemma release_from_heap_gone p headers allocated_segments k a :
  a ∈ slots_from p (length headers) allocated_segments -> a <> 0 ->
  a ∉ heap (release_from p headers allocated_segments k).
Proof.
  revert p k. induction headers as [|p_header rest IH]; intros p k Hin Ha; simpl in *.
  - apply elem_of_nil in Hin. destruct Hin.
  - unfold slots_from in Hin. simpl in Hin. apply elem_of_cons in Hin as [-> | Hin].
    + intros Hheap. apply release_from_heap_subseteq in Hheap.
      destruct (release_segment_handle p p_header allocated_segments k Ha) as [_ Hh].
      rewrite Hh in Hheap. apply elem_of_difference in Hheap as [_ Hn].
      apply Hn, elem_of_singleton. reflexivity.
    + apply IH; assumption.
Qed.


Lemma freed_app evs evs' : freed (evs ++ evs') = freed evs ++ freed evs'.
Proof. apply omap_app. Qed.

Lemma unmapped_app evs evs' : unmapped (evs ++ evs') = unmapped evs ++ unmapped evs'.
Proof. apply omap_app. Qed.

Lemma release_trace_freed p headers allocated_segments answers :
  freed (release_trace p headers allocated_segments answers)
  = filter (fun a => a <> 0) (slots_from p (length headers) allocated_segments).
Proof.
  revert p answers. induction headers as [|p_header rest IH]; intros p answers.
  - reflexivity.
  - cbn [release_trace length]. cbv zeta.
    unfold slots_from. cbn [seq fmap list_fmap].
    fold (slots_from (S p) (length rest) allocated_segments).
    destruct (Z.eqb_spec (allocated_segments !!! p) 0) as [Hz|Hz].
    + rewrite filter_cons_False by (intros H; apply H, Hz). apply IH.
    + rewrite filter_cons_True by exact Hz.
      rewrite freed_app, IH. unfold release_events.
      destruct (hd true answers); reflexivity.
Qed.

(** The header, block and answer of each release, in the order of the loop. *)
Lemma release_trace_at p headers allocated_segments answers i p_header :
  headers !! i = Some p_header ->
  allocated_segments !!! (p + i)%nat <> 0 ->
  exists before ok after,
    release_trace p headers allocated_segments answers
    = before ++ release_events p_header (allocated_segments !!! (p + i)%nat) ok ++ after.
Proof.
  revert p answers i.
  induction headers as [|h rest IH]; intros p answers i Hi Ha; [discriminate|].
  destruct i as [|i]; simpl in Hi.
  - injection Hi as ->. rewrite Nat.add_0_r in *. simpl.
    apply Z.eqb_neq in Ha. rewrite Ha.
    exists [], (hd true answers), (release_trace (S p) rest allocated_segments (tl answers)).
    reflexivity.
  - replace (p + S i)%nat with (S p + i)%nat in * by lia.
    cbn [release_trace]. cbv zeta.
    destruct (allocated_segments !!! p =? 0).
    + apply (IH (S p) answers i Hi Ha).
    + destruct (IH (S p) (tl answers) i Hi Ha) as (before & ok & after & ->).
      exists (release_events h (allocated_segments !!! p) (hd true answers) ++ before),
             ok, after.
      rewrite <- app_assoc. reflexivity.
Qed.

Lemma release_trace_order p headers allocated_segments answers :
  free_then_unmap (release_trace p headers allocated_segments answers).
Proof.
  revert p answers. induction headers as [|h rest IH]; intros p answers; simpl.
  - constructor.
  - destruct (allocated_segments !!! p =? 0); [apply IH|].
    unfold release_events.
    destruct (hd true answers); simpl; repeat constructor; apply IH.
Qed.

(** *** One iteration of [allocate_segments] *)

Lemma some_page_present_iff k first_page pages :
  some_page_present k first_page pages = true
  <-> exists v, v ∈ page_range first_page pages /\ page_present k v = true.
Proof.
  unfold some_page_present. rewrite existsb_exists.
  split; intros (v & Hin & Hp); exists v; split; try exact Hp;
    apply list_elem_of_In; exact Hin.
Qed.

Lemma allocate_segment_spec content flags p p_header allocated_segments k :
  (p < length allocated_segments)%nat ->
  let '(failed, segs', k') :=
    allocate_segment content flags p p_header allocated_segments k in
  length segs' = length allocated_segments
  /\ (forall q, q <> p -> segs' !! q = allocated_segments !! q)
  /\ exists v evs,
       segs' !! p = Some v
       /\ trace k' = trace k ++ evs
       /\ heap k' = (if v =? 0 then heap k else {[v]} ∪ heap k)
       /\ (v = 0 -> page_table k' = page_table k /\ Forall (fun e => ~ is_map_pages e) evs).
Proof.
  intros Hp. unfold allocate_segment.
  assert (Hlen0 : length (<[p:=0]> allocated_segments) = length allocated_segments)
    by apply length_insert.
  assert (Hne0 : forall q, q <> p ->
            <[p:=0]> allocated_segments !! q = allocated_segments !! q)
    by (intros q Hq; apply list_lookup_insert_ne; congruence).
  assert (Hat0 : <[p:=0]> allocated_segments !! p = Some 0)
    by (apply list_lookup_insert_eq; exact Hp).
  destruct (p_type p_header =? 1).
  2: { split_and!; [exact Hlen0 | exact Hne0 |].
       exists 0, []. rewrite app_nil_r.
       split_and!; [exact Hat0 | reflexivity | reflexivity |].
       intros _. split; [reflexivity | constructor]. }
  destruct (some_page_present k _ _).
  { split_and!; [exact Hlen0 | exact Hne0 |].
    exists 0, [KPrint "Some pages are already mapped"].
    split_and!; [exact Hat0 | reflexivity | reflexivity |].
    intros _. split; [reflexivity|]. repeat constructor. intros []. }
  unfold k_malloc. cbv zeta.
  set (memory := hd 0 (malloc_script k)).
  destruct (memory =? 0) eqn:Hm.
  { split_and!; [exact Hlen0 | exact Hne0 |].
    exists 0, [Malloc (bytes (layout_of (p_vaddr p_header) (p_memsz p_header))) memory;
               KPrint "Cannot allocate memory, probably out of memory"].
    split_and!; [exact Hat0 | | reflexivity |].
    - cbn [k_print_line emit trace]. rewrite <- app_assoc. reflexivity.
    - intros _. split; [reflexivity|].
      constructor; [intros [] | constructor; [intros [] | constructor]]. }
  assert (Hlen1 : length (<[p:=memory]> (<[p:=0]> allocated_segments))
                  = length allocated_segments)
    by (rewrite !length_insert; reflexivity).
  assert (Hne1 : forall q, q <> p ->
            <[p:=memory]> (<[p:=0]> allocated_segments) !! q = allocated_segments !! q).
  { intros q Hq. rewrite list_lookup_insert_ne by congruence. apply Hne0, Hq. }
  assert (Hat1 : <[p:=memory]> (<[p:=0]> allocated_segments) !! p = Some memory)
    by (apply list_lookup_insert_eq; rewrite Hlen0; exact Hp).
  assert (Hnz : memory <> 0) by (apply Z.eqb_neq, Hm).
  unfold map_pages. cbv zeta. cbn [map_script trace heap page_table].
  destruct (hd true (map_script k)); cbn [negb].
  - split_and!; [exact Hlen1 | exact Hne1 |].
    eexists memory, _. split_and!; [exact Hat1 | | | ].
    + cbn [store trace]. rewrite <- app_assoc. reflexivity.
    + cbn [store heap]. rewrite Hm. reflexivity.
    + intros Hz. contradiction.
  - split_and!; [exact Hlen1 | exact Hne1 |].
    eexists memory, _. split_and!; [exact Hat1 | | | ].
    + cbn [k_print_line emit trace]. rewrite <- !app_assoc. reflexivity.
    + cbn [k_print_line emit heap]. rewrite Hm. reflexivity.
    + intros Hz. contradiction.
Qed.

Lemma allocate_segment_blocked content flags p p_header allocated_segments k :
  segment_blocked p_header k ->
  (allocate_segment content flags p p_header allocated_segments k).1.1 = true.
Proof.
  intros [Hty Hwhy]. unfold allocate_segment.
  apply Z.eqb_eq in Hty. rewrite Hty.
  destruct (some_page_present k _ _) eqn:Hpresent; [reflexivity|].
  destruct Hwhy as [Hconflict | [Hmalloc | Hmap]].
  - apply some_page_present_iff in Hconflict. congruence.
  - unfold k_malloc. cbv zeta. rewrite Hmalloc. reflexivity.
  - unfold k_malloc. cbv zeta.
    destruct (hd 0 (malloc_script k) =? 0); [reflexivity|].
    unfold map_pages. cbv zeta. cbn [map_script]. rewrite Hmap. reflexivity.
Qed.

(** *** The loop of [allocate_segments] *)

Lemma allocate_from_app content flags p before rest allocated_segments k :
  allocate_from content flags p (before ++ rest) allocated_segments k
  = let '(failed, segs', k') :=
      allocate_from content flags p before allocated_segments k in
    if failed then (true, segs', k')
    else allocate_from content flags (p + length before) rest segs' k'.
Proof.
  revert p allocated_segments k.
  induction before as [|h before IH]; intros p allocated_segments k.
  - simpl. rewrite Nat.add_0_r. reflexivity.
  - cbn [app allocate_from length].
    destruct (allocate_segment content flags p h allocated_segments k)
      as [[failed segs'] k'].
    destruct failed; [reflexivity|].
    rewrite IH. replace (S p + length before)%nat with (p + S (length before))%nat by lia.
    reflexivity.
Qed.

(** A failed iteration ends the loop: nothing of the headers behind it
    matters. *)
Lemma allocate_from_failed content flags p p_header rest allocated_segments k segs' k' :
  allocate_segment content flags p p_header allocated_segments k = (true, segs', k') ->
  allocate_from content flags p (p_header :: rest) allocated_segments k
  = (true, segs', k').
Proof. intros H. simpl. rewrite H. reflexivity. Qed.

Lemma allocate_from_spec content flags p headers allocated_segments k :
  (p + length headers <= length allocated_segments)%nat ->
  let '(failed, segs', k') :=
    allocate_from content flags p headers allocated_segments k in
  length segs' = length allocated_segments
  /\ (forall q, (q < p \/ p + length headers <= q)%nat ->
        segs' !! q = allocated_segments !! q)
  /\ (forall a, a ∈ heap k' ->
        a ∈ heap k
        \/ (a <> 0 /\ exists q, (p <= q < p + length headers)%nat /\ segs' !! q = Some a)).
Proof.
  revert p allocated_segments k.
  induction headers as [|h rest IH]; intros p allocated_segments k Hlen.
  - simpl. split_and!; [reflexivity | reflexivity |]. intros a Ha. left. exact Ha.
  - cbn [allocate_from length] in *.
    pose proof (allocate_segment_spec content flags p h allocated_segments k
                  ltac:(lia)) as Hstep.
    destruct (allocate_segment content flags p h allocated_segments k)
      as [[failed segs1] k1].
    destruct Hstep as (Hl1 & Hne1 & v & evs & Hat & _ & Hheap & _).
    assert (Hown : forall a, a ∈ heap k1 -> a ∈ heap k \/ (a <> 0 /\ segs1 !! p = Some a)).
    { intros a Ha. rewrite Hheap in Ha. destruct (Z.eqb_spec v 0) as [Hz|Hz].
      - left. exact Ha.
      - apply elem_of_union in Ha as [Ha|Ha]; [|left; exact Ha].
        apply elem_of_singleton in Ha. subst a. right. split; assumption. }
    destruct failed.
    + split_and!; [exact Hl1 | |].
      * intros q Hq. apply Hne1. lia.
      * intros a Ha. destruct (Hown a Ha) as [Hk | [Hnz Hs]]; [left; exact Hk|].
        right. split; [exact Hnz|]. exists p. split; [lia | exact Hs].
    + pose proof (IH (S p) segs1 k1 ltac:(lia)) as Hrest.
      destruct (allocate_from content flags (S p) rest segs1 k1)
        as [[failed segs2] k2].
      destruct Hrest as (Hl2 & Hne2 & Hheap2).
      split_and!; [congruence | |].
      * intros q Hq. rewrite Hne2 by lia. apply Hne1. lia.
      * intros a Ha. destruct (Hheap2 a Ha) as [Hk1 | (Hnz & q & Hq & Hs)].
        -- destruct (Hown a Hk1) as [Hk | [Hnz Hs]]; [left; exact Hk|].
           right. split; [exact Hnz|]. exists p. split; [lia|].
           rewrite Hne2 by lia. exact Hs.
        -- right. split; [exact Hnz|]. exists q. split; [lia | exact Hs].
Qed.

Lemma slots_from_lookup p n allocated_segments q a :
  (p <= q < p + n)%nat -> allocated_segments !! q = Some a ->
  a ∈ slots_from p n allocated_segments.
Proof.
  intros Hq Hs. unfold slots_from. apply list_elem_of_fmap.
  exists q. split.
  - symmetry. apply list_lookup_total_correct, Hs.
  - apply elem_of_seq. lia.
Qed.

(** Whatever the load did, the blocks left after the cleanup were there
    before the load. *)
Lemma load_then_release_heap content flags allocated_segments k :
  length allocated_segments = e_phnum content ->
  let '(failed, segs', k') := allocate_segments content allocated_segments flags k in
  heap (release_segments content segs' k') ⊆ heap k.
Proof.
  intros Hlen. unfold allocate_segments, release_segments, e_phnum in *.
  pose proof (allocate_from_spec content flags 0 (program_header_table content)
                allocated_segments k ltac:(lia)) as H.
  destruct (allocate_from content flags 0 (program_header_table content)
              allocated_segments k) as [[failed segs'] k'].
  destruct H as (_ & _ & Hheap).
  intros a Ha. pose proof Ha as Ha'.
  apply release_from_heap_subseteq in Ha'.
  destruct (Hheap a Ha') as [Hk | (Hnz & q & Hq & Hs)]; [exact Hk|].
  exfalso. revert Ha. apply release_from_heap_gone; [|exact Hnz].
  eapply slots_from_lookup; eassumption.
Qed.

(** *** The copy of a segment *)

Lemma allocate_segment_copy content flags p p_header allocated_segments k segs' k' :
  allocate_segment content flags p p_header allocated_segments k = (false, segs', k') ->
  p_type p_header = 1 ->
  let l := layout_of (p_vaddr p_header) (p_memsz p_header) in
  let memory_start :=
    wrap64 (aligned_memory_of (hd 0 (malloc_script k)) + left_padding l) in
  ram k' = copy_n memory_start (buffer content) (p_offset p_header)
                  (p_memsz p_header) (ram k).
Proof.
  intros H Hty. unfold allocate_segment in H.
  apply Z.eqb_eq in Hty. rewrite Hty in H.
  destruct (some_page_present k _ _); [discriminate|].
  unfold k_malloc in H. cbv zeta in H.
  destruct (hd 0 (malloc_script k) =? 0); [discriminate|].
  unfold map_pages in H. cbv zeta in H. cbn [map_script] in H.
  destruct (hd true (map_script k)); cbn [negb] in H; [|discriminate].
  injection H as _ <-. reflexivity.
Qed.

(** C1 on the code: the image [bss_content] has one loadable segment with
    [p_filesize = 1] and [p_memsz = 2].  The load copies two bytes of the
    image, [p_memsz] of them: the byte behind the file part of the segment
    is written from the image as well. *)
Lemma copy_length_is_memsz :
  let '(failed, segs, k1) :=
    allocate_segments bss_content [0] user_flags (fresh_kernel [0x300010]) in
  failed = false
  /\ segs = [0x300010]
  /\ p_filesize bss_segment = 1
  /\ p_memsz bss_segment = 2
  /\ ram k1 0x301000 = buffer bss_content 0x40
  /\ ram k1 0x301001 = buffer bss_content 0x41
  /\ ram k1 0x301001 <> ram (fresh_kernel [0x300010]) 0x301001
  /\ ram k1 0x301002 = ram (fresh_kernel [0x300010]) 0x301002.
Proof. vm_compute. repeat split; discriminate. Qed.

(** *** Validation *)

(** C9: when the file is empty or fails the ELF check, [exec_command] returns
    to the shell having only printed: the page table, the heap, the memory
    and the answers of the allocator and of the mapper (none was asked for)
    are as before; with a file name and a mounted disk, [read_elf_file]
    returns no content and the message names the command and the reason. *)
Theorem invalid_file_touches_nothing sys params k :
  let content := read_file sys (params !!! 1%nat) in
  content_size content = 0 \/ is_valid sys content = false ->
  exists k',
    exec_command sys params k = Returned k'
    /\ page_table k' = page_table k
    /\ heap k' = heap k
    /\ ram k' = ram k
    /\ malloc_script k' = malloc_script k
    /\ map_script k' = map_script k
    /\ unmap_script k' = unmap_script k
    /\ (exists texts, texts <> [] /\ trace k' = trace k ++ (KPrint <$> texts))
    /\ ((2 <= length params)%nat ->
        mounted_partition sys = true -> mounted_disk sys = true ->
        (read_elf_file sys (params !!! 1%nat) "exec" k).1 = None
        /\ exists reason,
             reason ∈ [": The file does not exist or is empty";
                       ": This file is not an ELF file or not in ELF64 format"]
             /\ trace k' = trace k ++ [KPrint "exec"; KPrint reason]).
Proof.
  intros content H. unfold exec_command.
  destruct (length params <? 2)%nat eqn:Hn.
  { eexists. split; [reflexivity|]. split_and!; try reflexivity.
    - eexists [_]. split; [discriminate | reflexivity].
    - intros Hlen. apply Nat.ltb_lt in Hn. lia. }
  destruct (mounted_partition sys) eqn:Hmp, (mounted_disk sys) eqn:Hmd; simpl orb; cbv iota;
    try (eexists; split; [reflexivity|]; split_and!; try reflexivity;
         [eexists [_]; split; [discriminate | reflexivity] | intros; discriminate]).
  unfold read_elf_file. fold content.
  destruct H as [He | Hv].
  - apply Z.eqb_eq in He. rewrite He.
    eexists. split; [reflexivity|]. split_and!; try reflexivity.
    + eexists [_; _]. split; [discriminate|].
      cbn [k_print_line k_print emit trace]. rewrite <- app_assoc. reflexivity.
    + intros _ _ _. split; [reflexivity|]. eexists. split.
      * apply elem_of_cons. left. reflexivity.
      * cbn [k_print_line k_print emit trace]. rewrite <- app_assoc. reflexivity.
  - destruct (content_size content =? 0).
    + eexists. split; [reflexivity|]. split_and!; try reflexivity.
      * eexists [_; _]. split; [discriminate|].
        cbn [k_print_line k_print emit trace]. rewrite <- app_assoc. reflexivity.
      * intros _ _ _. split; [reflexivity|]. eexists. split.
        -- apply elem_of_cons. left. reflexivity.
        -- cbn [k_print_line k_print emit trace]. rewrite <- app_assoc. reflexivity.
    + rewrite Hv. cbn [negb].
      eexists. split; [reflexivity|]. split_and!; try reflexivity.
      * eexists [_; _]. split; [discriminate|].
        cbn [k_print_line k_print emit trace]. rewrite <- app_assoc. reflexivity.
      * intros _ _ _. split; [reflexivity|]. eexists. split.
        -- apply elem_of_cons. right. apply elem_of_cons. left. reflexivity.
        -- cbn [k_print_line k_print emit trace]. rewrite <- app_assoc. reflexivity.
Qed.

Lemma invalid_file_touches_nothing_witness :
  let sys := sample_system bss_content in
  let k := fresh_kernel [0x300010] in
  (content_size (read_file sys (["exec"; "prog"] !!! 1%nat)) = 0
   \/ is_valid sys (read_file sys (["exec"; "prog"] !!! 1%nat)) = false)
  /\ exists k',
    exec_command sys ["exec"; "prog"] k = Returned k'
    /\ page_table k' = page_table k
    /\ heap k' = heap k
    /\ ram k' = ram k
    /\ malloc_script k' = malloc_script k
    /\ map_script k' = map_script k
    /\ unmap_script k' = unmap_script k
    /\ (exists texts, texts <> [] /\ trace k' = trace k ++ (KPrint <$> texts))
    /\ ((2 <= length ["exec"; "prog"])%nat ->
        mounted_partition sys = true -> mounted_disk sys = true ->
        (read_elf_file sys (["exec"; "prog"] !!! 1%nat) "exec" k).1 = None
        /\ exists reason,
             reason ∈ [": The file does not exist or is empty";
                       ": This file is not an ELF file or not in ELF64 format"]
             /\ trace k' = trace k ++ [KPrint "exec"; KPrint reason]).
Proof.
  split; [right; reflexivity|].
  apply (invalid_file_touches_nothing (sample_system bss_content) ["exec"; "prog"]
           (fresh_kernel [0x300010])).
  right. reflexivity.
Defined.

(** *** Cleanup *)

Lemma slots_from_take_drop p n (allocated_segments : list Z) :
  (p + n <= length allocated_segments)%nat ->
  slots_from p n allocated_segments = take n (drop p allocated_segments).
Proof.
  revert p. induction n as [|n IH]; intros p Hlen; [reflexivity|].
  unfold slots_from. cbn [seq fmap list_fmap].
  fold (slots_from (S p) n allocated_segments).
  destruct (lookup_lt_is_Some_2 allocated_segments p ltac:(lia)) as [x Hx].
  rewrite (drop_S _ _ _ Hx). cbn [take].
  rewrite (list_lookup_total_correct _ _ _ Hx), IH by lia. reflexivity.
Qed.

Lemma slots_from_all (allocated_segments : list Z) :
  slots_from 0 (length allocated_segments) allocated_segments = allocated_segments.
Proof.
  rewrite slots_from_take_drop by lia. rewrite drop_0. apply firstn_all.
Qed.

Lemma filter_nonzero_nil (l : list Z) :
  filter (fun a => a <> 0) l = [] <-> Forall (fun a => a = 0) l.
Proof.
  induction l as [|x l IH]; [split; constructor|].
  destruct (Z.eq_dec x 0) as [Hz|Hz].
  - rewrite filter_cons_False by (intros H; apply H, Hz).
    rewrite IH. split; [intros H; constructor; assumption|].
    intros H. inversion H; assumption.
  - rewrite filter_cons_True by exact Hz.
    split; [discriminate|]. intros H. inversion H; contradiction.
Qed.

(** What one run of [release_segments] adds to the trace. *)
Lemma release_segments_trace content allocated_segments k :
  length allocated_segments = e_phnum content ->
  let evs := release_trace 0 (program_header_table content) allocated_segments
                           (unmap_script k) in
  trace (release_segments content allocated_segments k) = trace k ++ evs
  /\ freed evs = filter (fun a => a <> 0) allocated_segments
  /\ free_then_unmap evs.
Proof.
  intros Hlen evs. subst evs. unfold release_segments. split_and!.
  - apply release_from_trace.
  - rewrite release_trace_freed. unfold e_phnum in Hlen.
    rewrite <- Hlen, slots_from_all. reflexivity.
  - apply release_trace_order.
Qed.

(** The events of a cleanup: for each slot that holds a block, the free and
    directly behind it the unmap of the range of its segment. *)
Lemma release_segments_events content allocated_segments k :
  length allocated_segments = e_phnum content ->
  exists evs,
    trace (release_segments content allocated_segments k) = trace k ++ evs
    /\ free_then_unmap evs
    /\ freed evs = filter (fun a => a <> 0) allocated_segments
    /\ (forall p p_header a,
          program_header_table content !! p = Some p_header ->
          allocated_segments !! p = Some a -> a <> 0 ->
          let l := layout_of (p_vaddr p_header) (p_memsz p_header) in
          exists before ok after,
            evs = before ++ Free a :: UnmapPages (first_page l) (pages l) ok :: after).
Proof.
  intros Hlen.
  destruct (release_segments_trace content allocated_segments k Hlen) as (Htr & Hfreed & Hord).
  eexists. split_and!; [exact Htr | exact Hord | exact Hfreed |].
  intros p p_header a Hp Ha Hnz l.
  apply list_lookup_total_correct in Ha. subst a.
  destruct (release_trace_at 0 (program_header_table content) allocated_segments
              (unmap_script k) p p_header Hp Hnz) as (before & ok & after & Heq).
  exists before, ok.
  exists ((if ok then [] else [KPrint "Unmap failed, memory could be in invalid state"])
          ++ after).
  rewrite Heq. unfold release_events. simpl. reflexivity.
Qed.




(** C4, as the cleanup behaves: for every slot that holds a handle the
    block is freed first and the page range of the segment is unmapped
    directly after it; the cleanup frees the non-empty slots and nothing
    else, a slot without a handle is passed over, and an iteration of the
    load that leaves its slot empty has mapped nothing. *)
Theorem release_frees_then_unmaps content allocated_segments k :
  length allocated_segments = e_phnum content ->
  exists evs,
    trace (release_segments content allocated_segments k) = trace k ++ evs
    /\ free_then_unmap evs
    /\ freed evs = filter (fun a => a <> 0) allocated_segments
    /\ (forall p p_header a,
          program_header_table content !! p = Some p_header ->
          allocated_segments !! p = Some a -> a <> 0 ->
          let l := layout_of (p_vaddr p_header) (p_memsz p_header) in
          exists before ok after,
            evs = before ++ Free a :: UnmapPages (first_page l) (pages l) ok :: after)
    /\ (forall p p_header k0,
          allocated_segments !! p = Some 0 ->
          release_segment p p_header allocated_segments k0 = k0)
    /\ (forall flags p p_header k0,
          (p < length allocated_segments)%nat ->
          let '(_, segs', k1) :=
            allocate_segment content flags p p_header allocated_segments k0 in
          segs' !! p = Some 0 ->
          page_table k1 = page_table k0
          /\ Forall (fun e => ~ is_map_pages e) (drop (length (trace k0)) (trace k1))).
Proof.
  intros Hlen.
  destruct (release_segments_events content allocated_segments k Hlen)
    as (evs & Htr & Hord & Hfreed & Hat).
  exists evs. split_and!; [exact Htr | exact Hord | exact Hfreed | exact Hat | |].
  - intros p p_header k0 Hz. apply release_segment_empty.
    apply list_lookup_total_correct, Hz.
  - intros flags p p_header k0 Hp.
    pose proof (allocate_segment_spec content flags p p_header allocated_segments k0 Hp) as H.
    destruct (allocate_segment content flags p p_header allocated_segments k0)
      as [[failed segs'] k1].
    destruct H as (_ & _ & v & evs1 & Hat1 & Htr1 & _ & Hempty).
    intros Hz. rewrite Hat1 in Hz. injection Hz as ->.
    destruct (Hempty eq_refl) as [Hpt Hnomap]. split; [exact Hpt|].
    rewrite Htr1, drop_app_length. exact Hnomap.
Qed.

Lemma release_frees_then_unmaps_witness :
  length loaded_handles = e_phnum bss_content
  /\ exists evs,
    trace (release_segments bss_content loaded_handles (fresh_kernel []))
    = trace (fresh_kernel []) ++ evs
    /\ free_then_unmap evs
    /\ freed evs = filter (fun a => a <> 0) loaded_handles
    /\ (forall p p_header a,
          program_header_table bss_content !! p = Some p_header ->
          loaded_handles !! p = Some a -> a <> 0 ->
          let l := layout_of (p_vaddr p_header) (p_memsz p_header) in
          exists before ok after,
            evs = before ++ Free a :: UnmapPages (first_page l) (pages l) ok :: after)
    /\ (forall p p_header k0,
          loaded_handles !! p = Some 0 ->
          release_segment p p_header loaded_handles k0 = k0)
    /\ (forall flags p p_header k0,
          (p < length loaded_handles)%nat ->
          let '(_, segs', k1) :=
            allocate_segment bss_content flags p p_header loaded_handles k0 in
          segs' !! p = Some 0 ->
          page_table k1 = page_table k0
          /\ Forall (fun e => ~ is_map_pages e) (drop (length (trace k0)) (trace k1))).
Proof.
  split; [reflexivity|].
  apply (release_frees_then_unmaps bss_content loaded_handles (fresh_kernel [])).
  reflexivity.
Defined.

(** C4 fails on the code: in the cleanup after the load of [bss_content] the
    block is freed strictly before its pages are unmapped; between the two
    calls the block is free and the first page of the segment still mapped. *)
Lemma block_freed_before_unmap :
  let '(_, segs, k1) :=
    allocate_segments bss_content [0] user_flags (fresh_kernel [0x300010]) in
  let k2 := release_segments bss_content segs k1 in
  drop (length (trace k1)) (trace k2) = [Free 0x300010; UnmapPages 0x400000 2 true]
  /\ trace (k_free 0x300010 k1) = trace k1 ++ [Free 0x300010]
  /\ elements (heap (k_free 0x300010 k1)) = []
  /\ page_present (k_free 0x300010 k1) 0x400000 = true.
Proof. vm_compute. repeat split. Qed.

(** *** A load that aborts *)

(** How a load that is blocked at the header behind [before] ends. *)
Lemma blocked_load content flags allocated_segments k before p_header rest segs1 k1 segs2 k2 :
  program_header_table content = before ++ p_header :: rest ->
  length allocated_segments = e_phnum content ->
  allocate_from content flags 0 before allocated_segments k = (false, segs1, k1) ->
  allocate_segment content flags (length before) p_header segs1 k1 = (true, segs2, k2) ->
  allocate_segments content allocated_segments flags k = (true, segs2, k2)
  /\ length segs2 = length allocated_segments
  /\ (forall q, (length before < q)%nat -> segs2 !! q = allocated_segments !! q).
Proof.
  intros Htable Hlen Hbefore Hstep.
  unfold e_phnum in Hlen. rewrite Htable, length_app in Hlen. cbn [length] in Hlen.
  pose proof (allocate_from_spec content flags 0 before allocated_segments k
                ltac:(lia)) as Hb.
  rewrite Hbefore in Hb. destruct Hb as (Hl1 & Hne1 & _).
  pose proof (allocate_segment_spec content flags (length before) p_header segs1 k1
                ltac:(lia)) as Hs.
  rewrite Hstep in Hs. destruct Hs as (Hl2 & Hne2 & _).
  split_and!.
  - unfold allocate_segments. rewrite Htable, allocate_from_app, Hbefore.
    apply allocate_from_failed. exact Hstep.
  - congruence.
  - intros q Hq. rewrite Hne2 by lia. apply Hne1. lia.
Qed.

(** C2, as the code behaves: when a loadable segment finds one of its pages
    already mapped, or the allocator fails, or the mapper fails,
    [allocate_segments] reports the failure with the state that this
    iteration left (the headers behind it are not looked at); the cleanup then
    frees every block recorded in the handle array and unmaps its page range,
    and afterwards the allocator holds no block that it did not hold before
    the load.  The cleanup empties no slot: the blocks it has freed are the
    non-empty slots of the array, which it only reads, and a further cleanup
    of the same array frees each of them again. *)
Theorem blocked_load_is_released content flags allocated_segments k
    before p_header rest segs1 k1 :
  program_header_table content = before ++ p_header :: rest ->
  length allocated_segments = e_phnum content ->
  allocate_from content flags 0 before allocated_segments k = (false, segs1, k1) ->
  segment_blocked p_header k1 ->
  exists segs2 k2,
    allocate_segment content flags (length before) p_header segs1 k1 = (true, segs2, k2)
    /\ allocate_segments content allocated_segments flags k = (true, segs2, k2)
    /\ let k3 := release_segments content segs2 k2 in
       (forall q p_q a,
           program_header_table content !! q = Some p_q ->
           segs2 !! q = Some a -> a <> 0 ->
           let l := layout_of (p_vaddr p_q) (p_memsz p_q) in
           (a ∉ heap k3)
           /\ exists evs ok evs',
                trace k3
                = trace k2 ++ evs ++ Free a :: UnmapPages (first_page l) (pages l) ok :: evs')
       /\ heap k3 ⊆ heap k
       /\ (exists evs,
             trace k3 = trace k2 ++ evs
             /\ freed evs = filter (fun a => a <> 0) segs2)
       /\ (exists again,
             trace (release_segments content segs2 k3) = trace k3 ++ again
             /\ freed again = filter (fun a => a <> 0) segs2).
Proof.
  intros Htable Hlen Hbefore Hblocked.
  pose proof (allocate_segment_blocked content flags (length before) p_header segs1 k1
                Hblocked) as Hfail.
  destruct (allocate_segment content flags (length before) p_header segs1 k1)
    as [[failed segs2] k2] eqn:Hstep.
  cbn in Hfail. subst failed.
  destruct (blocked_load _ _ _ _ _ _ _ _ _ _ _ Htable Hlen Hbefore Hstep)
    as (Hload & Hlen2 & _).
  exists segs2, k2. split_and!; [reflexivity | exact Hload |].
  cbv zeta. split_and!.
  - intros q p_q a Hq Ha Hnz. split.
    + unfold release_segments. apply release_from_heap_gone; [|exact Hnz].
      apply slots_from_lookup with q; [|exact Ha].
      apply lookup_lt_Some in Hq. lia.
    + destruct (release_segments_events content segs2 k2 ltac:(congruence))
        as (evs0 & Htr & _ & _ & Hat).
      destruct (Hat q p_q a Hq Ha Hnz) as (evs & ok & evs' & ->).
      exists evs, ok, evs'. exact Htr.
  - pose proof (load_then_release_heap content flags allocated_segments k Hlen) as H.
    rewrite Hload in H. exact H.
  - destruct (release_segments_events content segs2 k2 ltac:(congruence))
      as (evs & Htr & _ & Hfreed & _).
    exists evs. split; assumption.
  - destruct (release_segments_events content segs2
                (release_segments content segs2 k2) ltac:(congruence))
      as (again & Htr & _ & Hfreed & _).
    exists again. split; assumption.
Qed.

Lemma blocked_load_is_released_witness :
  exists segs2 k2,
    allocate_segment two_segments user_flags 1 data_segment
      [0x300010; 0xBEEF; 0xF00D]
      (allocate_from two_segments user_flags 0 [text_segment] stale_handles
         premapped_kernel).2
    = (true, segs2, k2)
    /\ allocate_segments two_segments stale_handles user_flags premapped_kernel
       = (true, segs2, k2)
    /\ let k3 := release_segments two_segments segs2 k2 in
       (forall q p_q a,
           program_header_table two_segments !! q = Some p_q ->
           segs2 !! q = Some a -> a <> 0 ->
           let l := layout_of (p_vaddr p_q) (p_memsz p_q) in
           (a ∉ heap k3)
           /\ exists evs ok evs',
                trace k3
                = trace k2 ++ evs ++ Free a :: UnmapPages (first_page l) (pages l) ok :: evs')
       /\ heap k3 ⊆ heap premapped_kernel
       /\ (exists evs,
             trace k3 = trace k2 ++ evs
             /\ freed evs = filter (fun a => a <> 0) segs2)
       /\ (exists again,
             trace (release_segments two_segments segs2 k3) = trace k3 ++ again
             /\ freed again = filter (fun a => a <> 0) segs2).
Proof.
  apply (blocked_load_is_released two_segments user_flags stale_handles premapped_kernel
           [text_segment] data_segment [note_segment]).
  - reflexivity.
  - reflexivity.
  - reflexivity.
  - split; [reflexivity|]. left. exists 0x600000. split.
    + apply list_elem_of_In. vm_compute. left. reflexivity.
    + vm_compute. reflexivity.
Defined.

(** C2 fails on the code in its last clause: the load of [two_segments] into
    an array of empty slots is blocked at the second segment, whose first
    page is mapped already; the cleanup frees the block 0x300010 of the first
    segment and unmaps its two pages, and the allocator then holds nothing,
    but the slot 0 of the array still holds 0x300010, and a further cleanup of
    the array frees this block once more. *)
Lemma blocked_load_keeps_handle :
  let '(failed, segs2, k2) :=
    allocate_segments two_segments [0; 0; 0] user_flags premapped_kernel in
  let k3 := release_segments two_segments segs2 k2 in
  let k4 := release_segments two_segments segs2 k3 in
  failed = true
  /\ drop (length (trace k2)) (trace k3)
     = [Free 0x300010; UnmapPages 0x400000 2 true]
  /\ elements (heap k3) = []
  /\ segs2 = [0x300010; 0; 0]
  /\ drop (length (trace k3)) (trace k4)
     = [Free 0x300010; UnmapPages 0x400000 2 true].
Proof. vm_compute. repeat split. Qed.

Lemma new_array_length sys n : length (new_array sys n) = n.
Proof. unfold new_array. rewrite length_fmap. apply length_seq. Qed.

(** [exec_command] on a valid file whose load fails: the message, then the
    cleanup, then the return to the shell. *)
Lemma exec_command_failed_load sys params k segs2 k2 :
  let content := read_file sys (params !!! 1%nat) in
  (2 <= length params)%nat ->
  mounted_partition sys = true -> mounted_disk sys = true ->
  content_size content <> 0 -> is_valid sys content = true ->
  allocate_segments content (new_array sys (e_phnum content)) user_flags k
  = (true, segs2, k2) ->
  exec_command sys params k
  = Returned (release_segments content segs2
                (k_print_line "execin: Unable to execute the program" k2)).
Proof.
  intros content Hn Hmp Hmd Hsize Hvalid Hload. unfold exec_command.
  apply Nat.ltb_ge in Hn. rewrite Hn, Hmp, Hmd. simpl orb. cbv iota.
  unfold read_elf_file. fold content.
  apply Z.eqb_neq in Hsize. rewrite Hsize, Hvalid. cbn [negb].
  rewrite Hload. reflexivity.
Qed.

(** The same load through [exec_command]: the first segment is loaded, the
    second finds its page mapped, the first block is freed and unmapped, and
    so is the value that the slot never written happens to hold. *)
Example exec_premapped_trace :
  match exec_command (sample_system two_segments) ["exec"; "prog"] premapped_kernel with
  | Returned k' =>
      trace k'
      = [Malloc 4112 0x300010;
         MapPages 0x400000 0x301000 2 user_flags true;
         KPrint "Some pages are already mapped";
         KPrint "execin: Unable to execute the program";
         Free 0x300010; UnmapPages 0x400000 2 true;
         Free 0xDEAD; UnmapPages 0 2 true]
      /\ elements (heap k') = []
  | Transferred _ _ _ => False
  end.
Proof. vm_compute. split; reflexivity. Qed.

(** C10: when the load aborts at the index [p], no slot behind [p] has been
    written (it holds what the new array held); the cleanup goes through all
    [e_phnum] slots and frees and unmaps every one that is not empty, those
    behind [p] too; and the blocks it frees are those of the slots up to [p]
    exactly when every slot behind [p] is empty. *)
Theorem abort_leaves_later_slots content flags allocated_segments k
    before p_header rest segs1 k1 segs2 k2 :
  program_header_table content = before ++ p_header :: rest ->
  length allocated_segments = e_phnum content ->
  allocate_from content flags 0 before allocated_segments k = (false, segs1, k1) ->
  allocate_segment content flags (length before) p_header segs1 k1 = (true, segs2, k2) ->
  let p := length before in
  allocate_segments content allocated_segments flags k = (true, segs2, k2)
  /\ (forall q, (p < q)%nat -> segs2 !! q = allocated_segments !! q)
  /\ exists evs,
       trace (release_segments content segs2 k2) = trace k2 ++ evs
       /\ freed evs = filter (fun a => a <> 0) segs2
       /\ (forall q p_q a,
             program_header_table content !! q = Some p_q ->
             segs2 !! q = Some a -> a <> 0 ->
             let l := layout_of (p_vaddr p_q) (p_memsz p_q) in
             exists evs0 ok evs1,
               evs = evs0 ++ Free a :: UnmapPages (first_page l) (pages l) ok :: evs1)
       /\ (freed evs = filter (fun a => a <> 0) (take (S p) segs2)
           <-> forall q, (p < q < e_phnum content)%nat ->
                         allocated_segments !! q = Some 0).
Proof.
  intros Htable Hlen Hbefore Hstep p.
  destruct (blocked_load _ _ _ _ _ _ _ _ _ _ _ Htable Hlen Hbefore Hstep)
    as (Hload & Hlen2 & Hlater).
  split_and!; [exact Hload | exact Hlater |].
  destruct (release_segments_events content segs2 k2 ltac:(congruence))
    as (evs & Htr & _ & Hfreed & Hat).
  exists evs. split_and!; [exact Htr | exact Hfreed | exact Hat |].
  rewrite Hfreed. rewrite <- (take_drop (S p) segs2) at 1. rewrite filter_app.
  split.
  - intros Heq q Hq.
    rewrite <- (app_nil_r (filter _ (take (S p) segs2))) in Heq at 2.
    apply app_inv_head in Heq. apply filter_nonzero_nil in Heq.
    rewrite <- Hlater by lia.
    destruct (lookup_lt_is_Some_2 segs2 q ltac:(lia)) as [x Hx].
    rewrite Hx. f_equal.
    rewrite Forall_lookup in Heq. apply (Heq (q - S p)%nat).
    rewrite lookup_drop. rewrite <- Hx. f_equal. lia.
  - intros Hall.
    assert (Hz : Forall (fun a => a = 0) (drop (S p) segs2)).
    { apply Forall_lookup. intros i x Hi. rewrite lookup_drop in Hi.
      pose proof (lookup_lt_Some _ _ _ Hi) as Hlt.
      rewrite Hlater in Hi by lia. rewrite Hall in Hi by lia. congruence. }
    apply filter_nonzero_nil in Hz. rewrite Hz. apply app_nil_r.
Qed.

Lemma abort_leaves_later_slots_witness :
  let p := length [text_segment] in
  let k2 := (allocate_segments two_segments stale_handles user_flags premapped_kernel).2 in
  allocate_segments two_segments stale_handles user_flags premapped_kernel
  = (true, [0x300010; 0; 0xF00D], k2)
  /\ (forall q, (p < q)%nat -> [0x300010; 0; 0xF00D] !! q = stale_handles !! q)
  /\ exists evs,
       trace (release_segments two_segments [0x300010; 0; 0xF00D] k2) = trace k2 ++ evs
       /\ freed evs = filter (fun a => a <> 0) [0x300010; 0; 0xF00D]
       /\ (forall q p_q a,
             program_header_table two_segments !! q = Some p_q ->
             [0x300010; 0; 0xF00D] !! q = Some a -> a <> 0 ->
             let l := layout_of (p_vaddr p_q) (p_memsz p_q) in
             exists evs0 ok evs1,
               evs = evs0 ++ Free a :: UnmapPages (first_page l) (pages l) ok :: evs1)
       /\ (freed evs = filter (fun a => a <> 0) (take (S p) [0x300010; 0; 0xF00D])
           <-> forall q, (p < q < e_phnum two_segments)%nat ->
                         stale_handles !! q = Some 0).
Proof.
  apply (abort_leaves_later_slots two_segments user_flags stale_handles premapped_kernel
           [text_segment] data_segment [note_segment]
           [0x300010; 0xBEEF; 0xF00D]
           (allocate_from two_segments user_flags 0 [text_segment] stale_handles
              premapped_kernel).2).
  - reflexivity.
  - reflexivity.
  - reflexivity.
  - reflexivity.
Defined.

End LoaderProofs.

(** ** Further properties of the driver *)

Module NicExtras.
Import Rtl8139.

(** *** The MAC address *)

Lemma lor_disjoint_add (h x n : Z) :
  0 <= n -> 0 <= x < 2 ^ n -> Z.lor (h * 2 ^ n) x = h * 2 ^ n + x.
Proof.
  intros Hn Hx.
  assert (Hland : Z.land (h * 2 ^ n) x = 0).
  { apply Z.bits_inj'. intros m Hm. rewrite Z.land_spec, Z.bits_0.
    destruct (Z.lt_ge_cases m n) as [Hlt|Hge].
    - rewrite Z.mul_pow2_bits_low by lia. reflexivity.
    - destruct (Z.eq_dec x 0) as [->|Hx0]; [rewrite Z.bits_0; apply andb_false_r|].
      rewrite (Z.bits_above_log2 x m); [apply andb_false_r | lia |].
      apply Z.lt_le_trans with n; [apply Z.log2_lt_pow2; lia | exact Hge]. }
  rewrite <- Z.lxor_lor by exact Hland. symmetry. apply Z.add_nocarry_lxor, Hland.
Qed.

Lemma read_mac_sum f :
  read_mac f = wrap8 (f 0) * 2 ^ 40 + wrap8 (f 1) * 2 ^ 32 + wrap8 (f 2) * 2 ^ 24
               + wrap8 (f 3) * 2 ^ 16 + wrap8 (f 4) * 2 ^ 8 + wrap8 (f 5).
Proof.
  unfold read_mac. cbn [fold_left].
  assert (Hb : forall i, 0 <= wrap8 (f i) < 2 ^ 8)
    by (intros i; unfold wrap8; apply Z.mod_pos_bound; lia).
  pose proof (Hb 0); pose proof (Hb 1); pose proof (Hb 2);
  pose proof (Hb 3); pose proof (Hb 4); pose proof (Hb 5).
  change ((5 - 0) * 8) with 40. change ((5 - 1) * 8) with 32.
  change ((5 - 2) * 8) with 24. change ((5 - 3) * 8) with 16.
  change ((5 - 4) * 8) with 8. change ((5 - 5) * 8) with 0.
  rewrite !Z.shiftl_mul_pow2 by lia. rewrite Z.lor_0_l.
  set (b0 := wrap8 (f 0)) in *. set (b1 := wrap8 (f 1)) in *.
  set (b2 := wrap8 (f 2)) in *. set (b3 := wrap8 (f 3)) in *.
  set (b4 := wrap8 (f 4)) in *. set (b5 := wrap8 (f 5)) in *.
  rewrite (lor_disjoint_add b0 (b1 * 2 ^ 32) 40) by lia.
  replace (b0 * 2 ^ 40 + b1 * 2 ^ 32) with ((b0 * 2 ^ 8 + b1) * 2 ^ 32) by lia.
  rewrite (lor_disjoint_add _ (b2 * 2 ^ 24) 32) by lia.
  replace ((b0 * 2 ^ 8 + b1) * 2 ^ 32 + b2 * 2 ^ 24)
    with ((b0 * 2 ^ 16 + b1 * 2 ^ 8 + b2) * 2 ^ 24) by lia.
  rewrite (lor_disjoint_add _ (b3 * 2 ^ 16) 24) by lia.
  replace ((b0 * 2 ^ 16 + b1 * 2 ^ 8 + b2) * 2 ^ 24 + b3 * 2 ^ 16)
    with ((b0 * 2 ^ 24 + b1 * 2 ^ 16 + b2 * 2 ^ 8 + b3) * 2 ^ 16) by lia.
  rewrite (lor_disjoint_add _ (b4 * 2 ^ 8) 16) by lia.
  replace ((b0 * 2 ^ 24 + b1 * 2 ^ 16 + b2 * 2 ^ 8 + b3) * 2 ^ 16 + b4 * 2 ^ 8)
    with ((b0 * 2 ^ 32 + b1 * 2 ^ 24 + b2 * 2 ^ 16 + b3 * 2 ^ 8 + b4) * 2 ^ 8) by lia.
  rewrite (lor_disjoint_add _ (b5 * 2 ^ 0) 8) by lia. lia.
Qed.

(** X1: the MAC address that [init_driver] stores is a 48-bit value whose
    byte [5 - i], counted from the low end, is the byte read from the
    register [MAC0 + i]: the first register gives the highest byte. *)
Theorem mac_address_bytes inp m r i :
  init_driver inp m = Some r ->
  0 <= i <= 5 ->
  0 <= mac_address r < 2 ^ 48
  /\ Z.land (Z.shiftr (mac_address r) ((5 - i) * 8)) 0xFF = wrap8 (mac_byte inp i).
Proof.
  intros Hinit Hi.
  assert (Hmac : mac_address r = read_mac (mac_byte inp)).
  { revert Hinit. unfold init_driver.
    destruct (wait_reset (reset_polls inp)); [|discriminate].
    intros [= <-]. reflexivity. }
  rewrite Hmac, read_mac_sum.
  assert (Hb : forall j, 0 <= wrap8 (mac_byte inp j) < 2 ^ 8)
    by (intros j; unfold wrap8; apply Z.mod_pos_bound; lia).
  pose proof (Hb 0); pose proof (Hb 1); pose proof (Hb 2);
  pose proof (Hb 3); pose proof (Hb 4); pose proof (Hb 5).
  split; [lia|].
  change 0xFF with (Z.ones 8). rewrite Z.land_ones by lia.
  rewrite Z.shiftr_div_pow2 by lia.
  assert (Hc : i = 0 \/ i = 1 \/ i = 2 \/ i = 3 \/ i = 4 \/ i = 5) by lia.
  destruct Hc as [-> | [-> | [-> | [-> | [-> | ->]]]]];
    match goal with |- context [2 ^ ?e] =>
      let v := eval vm_compute in e in change e with v end;
    Z.to_euclidean_division_equations; lia.
Qed.

Lemma mac_address_bytes_witness :
  exists r,
    init_driver sample_input (fun _ => 0xAA) = Some r
    /\ 0 <= mac_address r < 2 ^ 48
    /\ Z.land (Z.shiftr (mac_address r) ((5 - 1) * 8)) 0xFF
       = wrap8 (mac_byte sample_input 1).
Proof.
  eexists. split; [reflexivity|].
  apply (mac_address_bytes sample_input (fun _ => 0xAA) _ 1); [reflexivity | lia].
Defined.

Example sample_mac :
  mac_address <$> init_driver sample_input (fun _ => 0) = Some 0x525354555657.
Proof. reflexivity. Qed.

(** *** The software reset *)

Lemma wait_reset_iff polls :
  wait_reset polls = true <-> Exists (fun c => Z.land c 0x10 = 0) polls.
Proof.
  induction polls as [|c rest IH]; simpl.
  - split; [discriminate | intros H; inversion H].
  - destruct (Z.eqb_spec (Z.land c 16) 0) as [Hz|Hz].
    + split; [intros _; left; exact Hz | reflexivity].
    + rewrite IH. split; [intros H; right; exact H|].
      intros H. inversion H; [contradiction | assumption].
Qed.

(** X2: [init_driver] gets past the wait for the software reset exactly when
    the device clears the reset bit of the command register at some read;
    the register window it then stores has its two low bits clear, and the
    interrupt line it registers is below 256. *)
Theorem init_driver_returns_iff inp m :
  (is_Some (init_driver inp m)
   <-> Exists (fun c => Z.land c 0x10 = 0) (reset_polls inp))
  /\ (forall r, init_driver inp m = Some r ->
        iobase (desc_of r) mod 4 = 0
        /\ exists irq, IrqHandler irq ∈ init_events r /\ 0 <= irq < 256).
Proof.
  split.
  - rewrite <- wait_reset_iff. unfold init_driver.
    destruct (wait_reset (reset_polls inp)).
    + split; [reflexivity | intros _; eexists; reflexivity].
    + split; [intros [x Hx]; discriminate | discriminate].
  - intros r. unfold init_driver.
    destruct (wait_reset (reset_polls inp)); [|discriminate].
    intros [= <-]. cbn [desc_of iobase init_events]. split.
    + rewrite Z.land_comm. change 4 with (2 ^ 2).
      rewrite <- Z.land_ones by lia. rewrite <- Z.land_assoc, (Z.land_comm _ (Z.ones 2)).
      rewrite Z.land_assoc.
      replace (Z.land (Z.ones 2) (wrap32 (Z.lnot 3))) with 0 by reflexivity.
      apply Z.land_0_l.
    + exists (Z.land (pci_irq inp) 0xFF). split.
      * apply list_elem_of_In. simpl. do 9 right. apply in_or_app. right.
        simpl. right. right. left. reflexivity.
      * change 0xFF with (Z.ones 8). rewrite Z.land_ones by lia.
        apply Z.mod_pos_bound. lia.
Qed.

(** *** The cursor and the read pointer *)

(** X3: while the 64-bit cursor does not overflow, an iteration moves it
    past the 4-byte header and the frame, by at most 3 bytes of padding more:
    the cursor strictly grows. *)
Theorem cursor_advances desc m cur :
  0 <= cur -> cur + 2 ^ 16 + 7 <= 2 ^ 64 ->
  let it := rx_body desc m cur in
  cur + it_length it + 4 <= it_next it <= cur + it_length it + 7
  /\ cur < it_next it.
Proof.
  intros Hc Hmax it. subst it.
  pose proof (NicProofs.rx_body_length_range desc m cur) as Hl.
  rewrite NicProofs.rx_body_next.
  rewrite NicProofs.advance_round_up by lia.
  set (x := cur + it_length (rx_body desc m cur) + 7) in *.
  assert (Hx : x - 3 <= x / 4 * 4 <= x)
    by (Z.to_euclidean_division_equations; lia).
  lia.
Qed.

Lemma cursor_advances_witness :
  0 <= 68
  /\ 68 + 2 ^ 16 + 7 <= 2 ^ 64
  /\ let it := rx_body sample_desc (ring_with_header 0x100044 1 61) 68 in
     68 + it_length it + 4 <= it_next it <= 68 + it_length it + 7
     /\ 68 < it_next it.
Proof.
  split; [lia|]. split; [lia|].
  apply (cursor_advances sample_desc (ring_with_header 0x100044 1 61) 68); lia.
Defined.

Lemma pointer_writes_app desc evs evs' :
  pointer_writes desc (evs ++ evs')
  = pointer_writes desc evs ++ pointer_writes desc evs'.
Proof. apply omap_app. Qed.

Lemma decoded_app evs evs' : decoded (evs ++ evs') = decoded evs ++ decoded evs'.
Proof. apply omap_app. Qed.

(** What one iteration writes to the read pointer and gives to the decoder. *)
Lemma rx_body_outputs desc m cur :
  let it := rx_body desc m cur in
  pointer_writes desc (it_events it) = [wrap16 (it_next it - 0x10)]
  /\ decoded (it_events it)
     = match it_forwarded it with Some packet => [packet] | None => [] end.
Proof.
  cbv zeta. rewrite NicProofs.rx_body_events, NicProofs.rx_body_forwarded. cbv zeta.
  rewrite pointer_writes_app, decoded_app.
  assert (Hp : pointer_writes desc
                 [OutWord (iobase desc + RX_BUF_PTR)
                    (wrap16 (it_next (rx_body desc m cur) - 16));
                  Log "rtl8139: Packet Handled"]
               = [wrap16 (it_next (rx_body desc m cur) - 16)]).
  { unfold pointer_writes. cbn [omap list_omap]. rewrite Z.eqb_refl. reflexivity. }
  rewrite Hp.
  destruct (negb _); [split; reflexivity|].
  destruct (_ =? 0); split; reflexivity.
Qed.

Lemma drain_outputs desc polls cur :
  let its := drain desc polls cur in
  pointer_writes desc (List.concat (List.map it_events its))
  = (fun it => wrap16 (it_next it - 0x10)) <$> its
  /\ decoded (List.concat (List.map it_events its)) = omap it_forwarded its.
Proof.
  revert cur. induction polls as [|poll rest IH]; intros cur; [split; reflexivity|].
  cbn [drain]. destruct (Z.land (cmd poll) CMD_NOT_EMPTY =? 0); [|split; reflexivity].
  cbv zeta. cbn [List.map List.concat fmap list_fmap omap list_omap].
  rewrite pointer_writes_app, decoded_app.
  destruct (rx_body_outputs desc (ring poll) cur) as [-> ->].
  destruct (IH (it_next (rx_body desc (ring poll) cur))) as [-> ->].
  split; [reflexivity|].
  destruct (it_forwarded (rx_body desc (ring poll) cur)); reflexivity.
Qed.

Lemma last_of_iterations (g : Z -> Z) cur (its : list rx_iteration) :
  its <> [] ->
  last ((fun it => g (it_next it)) <$> its) = Some (g (final_cursor cur its)).
Proof.
  revert cur. induction its as [|it its IH]; intros cur Hne; [contradiction|].
  rewrite NicProofs.final_cursor_cons.
  destruct its as [|it' its]; [reflexivity|].
  rewrite <- (IH (it_next it)) by discriminate. reflexivity.
Qed.

(** X4: the handler writes the read-pointer register once per iteration of
    the drain loop, each time with the new cursor less 16 on 16 bits; when it
    returns after at least one iteration, the last value written is the stored
    cursor less 16. *)
Theorem read_pointer_follows_cursor desc status polls :
  let '(desc', its, evs) := packet_handler desc status polls in
  pointer_writes desc evs = (fun it => wrap16 (it_next it - 0x10)) <$> its
  /\ (its <> [] ->
      last (pointer_writes desc evs) = Some (wrap16 (cur_rx desc' - 0x10))).
Proof.
  unfold packet_handler.
  assert (Hack : forall evs,
            pointer_writes desc
              ([Log "rtl8139: Packet Received"; OutWord (iobase desc + ISR) status] ++ evs)
            = pointer_writes desc evs).
  { intros evs. unfold pointer_writes. cbn [app omap list_omap].
    replace (iobase desc + ISR =? iobase desc + RX_BUF_PTR) with false; [reflexivity|].
    symmetry. apply Z.eqb_neq. unfold ISR, RX_BUF_PTR. lia. }
  destruct (negb (Z.land status RX_OK =? 0)).
  - rewrite Hack. cbn [app]. change (Log "rtl8139: Receive status OK" :: ?l)
      with ([Log "rtl8139: Receive status OK"] ++ l).
    rewrite pointer_writes_app. cbn [pointer_writes omap list_omap app].
    fold (pointer_writes desc). 
    destruct (drain_outputs desc polls (cur_rx desc)) as [Hp _].
    cbv zeta in Hp. split; [exact Hp|].
    intros Hne. rewrite Hp. cbn [cur_rx].
    apply (last_of_iterations (fun c => wrap16 (c - 16))). exact Hne.
  - rewrite Hack. split; [reflexivity|]. intros Hne. contradiction.
Qed.

(** X5: the packets that the handler gives to the link-layer decoder are the
    payloads of the valid frames of its iterations, each once and in the order
    of the ring; nothing is decoded when the status lacks "receive OK". *)
Theorem decoded_are_valid_frames desc status polls :
  let '(desc', its, evs) := packet_handler desc status polls in
  decoded evs = omap it_forwarded its
  /\ (Z.land status RX_OK = 0 -> decoded evs = [] /\ desc' = desc).
Proof.
  unfold packet_handler.
  destruct (Z.eqb_spec (Z.land status RX_OK) 0) as [Hz|Hz]; cbn [negb].
  - split; [reflexivity|]. intros _. split; reflexivity.
  - split; [|intros H; contradiction].
    rewrite !decoded_app.
    destruct (drain_outputs desc polls (cur_rx desc)) as [_ Hd].
    cbv zeta in Hd. rewrite Hd. reflexivity.
Qed.

(** X6: the drain loop runs one iteration for each poll that shows the ring
    not empty and stops at the first that shows it empty; what the device
    would show behind that is not looked at. *)
Theorem drain_stops_at_empty desc ready empty rest cur :
  Forall (fun poll => Z.land (cmd poll) CMD_NOT_EMPTY = 0) ready ->
  Z.land (cmd empty) CMD_NOT_EMPTY <> 0 ->
  drain desc (ready ++ empty :: rest) cur = drain desc ready cur
  /\ length (drain desc ready cur) = length ready.
Proof.
  intros Hready Hempty. revert cur.
  induction Hready as [|poll ready Hpoll _ IH]; intros cur.
  - cbn [app drain length]. apply Z.eqb_neq in Hempty. rewrite Hempty.
    split; reflexivity.
  - cbn [app drain]. rewrite Hpoll. cbn [Z.eqb]. cbv zeta.
    destruct (IH (it_next (rx_body desc (ring poll) cur))) as [-> Hlen].
    split; [reflexivity|]. cbn [length]. rewrite Hlen. reflexivity.
Qed.

Lemma drain_stops_at_empty_witness :
  let ready := [{| cmd := 0; ring := ring_with_header 0x100000 1 64 |};
                {| cmd := 0; ring := ring_with_header 0x100044 1 61 |}] in
  let empty := {| cmd := 1; ring := fun _ => 0 |} in
  let rest := [{| cmd := 0; ring := ring_with_header 0x100088 1 64 |}] in
  drain sample_desc (ready ++ empty :: rest) 0 = drain sample_desc ready 0
  /\ length (drain sample_desc ready 0) = length ready.
Proof.
  apply (drain_stops_at_empty sample_desc
           [{| cmd := 0; ring := ring_with_header 0x100000 1 64 |};
            {| cmd := 0; ring := ring_with_header 0x100044 1 61 |}]
           {| cmd := 1; ring := fun _ => 0 |}
           [{| cmd := 0; ring := ring_with_header 0x100088 1 64 |}] 0).
  - repeat constructor.
  - vm_compute. discriminate.
Defined.

End NicExtras.

(** ** Further properties of the loader *)

Module LoaderExtras.
Import Shell.

(** *** The page table *)

Lemma page_range_spec virt pages v :
  v ∈ page_range virt pages
  <-> exists i, (i < Z.to_nat pages)%nat /\ v = wrap64 (virt + Z.of_nat i * PAGE_SIZE).
Proof.
  unfold page_range. rewrite list_elem_of_In, in_map_iff. split.
  - intros (i & <- & Hi). apply in_seq in Hi. exists i. split; [lia | reflexivity].
  - intros (i & Hi & ->). exists i. split; [reflexivity|]. apply in_seq. lia.
Qed.

(** The pages of a range that starts on a page boundary are page
    boundaries. *)
Lemma page_range_aligned a pages v :
  v ∈ page_range (page_align a) pages -> page_align v = v.
Proof.
  intros Hv. apply page_range_spec in Hv as (i & _ & ->).
  unfold page_align, wrap64, PAGE_SIZE.
  Z.to_euclidean_division_equations. lia.
Qed.

Lemma fold_insert_other (key val : nat -> Z) (l : list nat) (t : gmap Z Z) v :
  (forall i, i ∈ l -> key i <> v) ->
  fold_left (fun t i => <[key i := val i]> t) l t !! v = t !! v.
Proof.
  revert t. induction l as [|i l IH]; intros t H; [reflexivity|].
  cbn [fold_left]. rewrite IH.
  - apply lookup_insert_ne. apply H. left.
  - intros j Hj. apply H. right. exact Hj.
Qed.

Lemma fold_delete_lookup (l : list Z) (t : gmap Z Z) v :
  fold_left (fun t v => delete v t) l t !! v
  = if bool_decide (v ∈ l) then None else t !! v.
Proof.
  revert t. induction l as [|x l IH]; intros t; [reflexivity|].
  cbn [fold_left]. rewrite IH.
  destruct (decide (x = v)) as [->|Hne].
  - rewrite lookup_delete_eq. rewrite (bool_decide_eq_true_2 (v ∈ v :: l)) by left.
    destruct (bool_decide (v ∈ l)); reflexivity.
  - rewrite lookup_delete_ne by exact Hne.
    destruct (decide (v ∈ l)) as [Hin|Hnin].
    + rewrite !bool_decide_eq_true_2; [reflexivity | right; exact Hin | exact Hin].
    + rewrite !bool_decide_eq_false_2; [reflexivity | | exact Hnin].
      intros Hin. apply elem_of_cons in Hin as [-> | Hin]; contradiction.
Qed.

Lemma no_page_present k first_page pages :
  some_page_present k first_page pages = false ->
  forall v, v ∈ page_range first_page pages -> page_present k v = false.
Proof.
  intros H v Hv. destruct (page_present k v) eqn:Hp; [|reflexivity].
  assert (Ht : some_page_present k first_page pages = true); [|congruence].
  apply LoaderProofs.some_page_present_iff. exists v. split; assumption.
Qed.

(** One successful iteration of the load: a loadable segment found none of
    its pages in the table, changed the table on these pages only and left a
    block in its slot; another segment changed nothing and left its slot
    empty. *)
Lemma allocate_segment_pages content flags p p_header allocated_segments k segs' k' :
  allocate_segment content flags p p_header allocated_segments k = (false, segs', k') ->
  (p < length allocated_segments)%nat ->
  unmap_script k' = unmap_script k
  /\ (p_type p_header = 1 ->
      (forall v, v ∈ segment_pages p_header -> page_table k !! v = None)
      /\ (forall v, v ∉ segment_pages p_header -> page_table k' !! v = page_table k !! v)
      /\ exists a, a <> 0 /\ segs' !! p = Some a)
  /\ (p_type p_header <> 1 -> page_table k' = page_table k /\ segs' !! p = Some 0).
Proof.
  intros H Hp. unfold allocate_segment in H.
  destruct (Z.eqb_spec (p_type p_header) 1) as [Hty|Hty].
  2: { injection H as <- <-. split_and!; [reflexivity | intros; contradiction |].
       intros _. split; [reflexivity|]. apply list_lookup_insert_eq. exact Hp. }
  destruct (some_page_present k _ _) eqn:Hfree; [discriminate|].
  unfold k_malloc in H. cbv zeta in H.
  destruct (hd 0 (malloc_script k) =? 0) eqn:Hm; [discriminate|].
  unfold map_pages in H. cbv zeta in H. cbn [map_script page_table] in H.
  destruct (hd true (map_script k)); cbn [negb] in H; [|discriminate].
  injection H as <- <-. cbn [store unmap_script page_table].
  split_and!; [reflexivity | | intros; contradiction].
  intros _. split_and!.
  - intros v Hv. unfold segment_pages in Hv. cbv zeta in Hv.
    pose proof (no_page_present _ _ _ Hfree v Hv) as Hnp.
    unfold page_present in Hnp. apply bool_decide_eq_false in Hnp.
    cbn [first_page layout_of] in Hv. rewrite (page_range_aligned _ _ _ Hv) in Hnp.
    apply eq_None_not_Some. exact Hnp.
  - intros v Hv. apply fold_insert_other. intros i Hi Heq. apply Hv.
    unfold segment_pages. cbv zeta. apply page_range_spec. exists i.
    apply elem_of_seq in Hi as [_ Hi]. split; [exact Hi | symmetry; exact Heq].
  - exists (hd 0 (malloc_script k)). split; [apply Z.eqb_neq, Hm|].
    apply list_lookup_insert_eq. rewrite length_insert. exact Hp.
Qed.

(** A successful load: the pages of the loadable segments were all absent
    before it, the table is changed on these pages only, and the slots that
    hold a block are those of the loadable segments. *)
Lemma allocate_from_pages content flags p headers allocated_segments k segs' k' :
  allocate_from content flags p headers allocated_segments k = (false, segs', k') ->
  (p + length headers <= length allocated_segments)%nat ->
  unmap_script k' = unmap_script k
  /\ (forall v p_header, p_header ∈ headers -> p_type p_header = 1 ->
        v ∈ segment_pages p_header -> page_table k !! v = None)
  /\ (forall v, (forall p_header, p_header ∈ headers -> p_type p_header = 1 ->
                  v ∉ segment_pages p_header) ->
        page_table k' !! v = page_table k !! v)
  /\ (forall i p_header a, headers !! i = Some p_header ->
        segs' !! (p + i)%nat = Some a -> (a <> 0 <-> p_type p_header = 1)).
Proof.
  revert p allocated_segments k.
  induction headers as [|h rest IH]; intros p allocated_segments k H Hlen.
  - injection H as <- <-. split_and!; try reflexivity.
    + intros v p_header Hin. apply elem_of_nil in Hin. destruct Hin.
    + intros i p_header a Hi. discriminate.
  - cbn [allocate_from length] in *.
    destruct (allocate_segment content flags p h allocated_segments k)
      as [[failed segs1] k1] eqn:Hstep.
    destruct failed; [discriminate|].
    destruct (allocate_segment_pages _ _ _ _ _ _ _ _ Hstep ltac:(lia))
      as (Hu1 & Hload & Hskip).
    pose proof (LoaderProofs.allocate_segment_spec content flags p h allocated_segments k
                  ltac:(lia)) as Hspec.
    rewrite Hstep in Hspec. destruct Hspec as (Hl1 & _).
    destruct (IH (S p) segs1 k1 H ltac:(lia)) as (Hu2 & Habsent & Hother & Hslots).
    pose proof (LoaderProofs.allocate_from_spec content flags (S p) rest segs1 k1
                  ltac:(lia)) as Hrest.
    rewrite H in Hrest. destruct Hrest as (_ & Hkeep & _).
    assert (Hfirst : forall v, (p_type h = 1 -> v ∉ segment_pages h) ->
              page_table k1 !! v = page_table k !! v).
    { intros v Hv. destruct (Z.eq_dec (p_type h) 1) as [Hty|Hty].
      - destruct (Hload Hty) as (_ & Hsame & _). apply Hsame, Hv, Hty.
      - destruct (Hskip Hty) as [-> _]. reflexivity. }
    split_and!.
    + congruence.
    + intros v p_header Hin Hty Hv.
      apply elem_of_cons in Hin as [-> | Hin].
      * destruct (Hload Hty) as (Hnone & _). apply Hnone, Hv.
      * destruct (Z.eq_dec (p_type h) 1) as [Hty1|Hty1].
        -- destruct (decide (v ∈ segment_pages h)) as [Hv1|Hv1].
           ++ destruct (Hload Hty1) as (Hnone & _). apply Hnone, Hv1.
           ++ rewrite <- Hfirst by (intros _; exact Hv1).
              eapply Habsent; eassumption.
        -- rewrite <- Hfirst by (intros; contradiction).
           eapply Habsent; eassumption.
    + intros v Hv. rewrite Hother.
      * apply Hfirst. intros Hty. apply Hv; [left | exact Hty].
      * intros p_header Hin Hty. apply Hv; [right; exact Hin | exact Hty].
    + intros i p_header a Hi Ha. destruct i as [|i]; cbn in Hi.
      * injection Hi as ->. rewrite Nat.add_0_r in Ha.
        rewrite Hkeep in Ha by lia.
        destruct (Z.eq_dec (p_type p_header) 1) as [Hty|Hty].
        -- destruct (Hload Hty) as (_ & _ & b & Hb & Hsb).
           rewrite Hsb in Ha. injection Ha as <-. tauto.
        -- destruct (Hskip Hty) as [_ Hs0].
           rewrite Hs0 in Ha. injection Ha as <-. tauto.
      * apply (Hslots i); [exact Hi|].
        replace (S p + i)%nat with (p + S i)%nat by lia. exact Ha.
Qed.

Lemma release_segment_table p p_header allocated_segments k :
  Forall (fun ok => ok = true) (unmap_script k) ->
  let k' := release_segment p p_header allocated_segments k in
  Forall (fun ok => ok = true) (unmap_script k')
  /\ forall v,
       page_table k' !! v
       = if bool_decide (allocated_segments !!! p <> 0 /\ v ∈ segment_pages p_header)
         then None else page_table k !! v.
Proof.
  intros Hok k'. subst k'. unfold release_segment.
  destruct (Z.eqb_spec (allocated_segments !!! p) 0) as [Hz|Hz]; cbn [negb].
  - split; [exact Hok|]. intros v.
    rewrite bool_decide_eq_false_2; [reflexivity | tauto].
  - unfold unmap_pages. cbv zeta. cbn [k_free unmap_script page_table trace].
    assert (Hhd : hd true (unmap_script k) = true)
      by (destruct Hok; [reflexivity | assumption]).
    rewrite Hhd. cbn [negb unmap_script page_table]. split.
    + destruct Hok; [constructor | assumption].
    + intros v. rewrite fold_delete_lookup. unfold segment_pages. cbv zeta.
      destruct (decide (v ∈ page_range
                  (first_page (layout_of (p_vaddr p_header) (p_memsz p_header)))
                  (pages (layout_of (p_vaddr p_header) (p_memsz p_header))))) as [Hin|Hnin].
      * rewrite !bool_decide_eq_true_2; [reflexivity | tauto | exact Hin].
      * rewrite !bool_decide_eq_false_2; [reflexivity | tauto | exact Hnin].
Qed.

Lemma release_from_table p headers allocated_segments k :
  Forall (fun ok => ok = true) (unmap_script k) ->
  let k' := release_from p headers allocated_segments k in
  (forall v i p_header, headers !! i = Some p_header ->
      allocated_segments !!! (p + i)%nat <> 0 -> v ∈ segment_pages p_header ->
      page_table k' !! v = None)
  /\ (forall v, (forall i p_header, headers !! i = Some p_header ->
                    allocated_segments !!! (p + i)%nat <> 0 ->
                    v ∉ segment_pages p_header) ->
        page_table k' !! v = page_table k !! v)
  /\ (forall v, page_table k !! v = None -> page_table k' !! v = None).
Proof.
  revert p k. induction headers as [|h rest IH]; intros p k Hok.
  - cbn. split_and!; [intros; discriminate | reflexivity | tauto].
  - cbn [release_from].
    destruct (release_segment_table p h allocated_segments k Hok) as [Hok1 Hstep].
    destruct (IH (S p) _ Hok1) as (Hgone & Hkeep & Hnone).
    cbv zeta in *. split_and!.
    + intros v i p_header Hi Ha Hv. destruct i as [|i]; cbn in Hi.
      * injection Hi as ->. rewrite Nat.add_0_r in Ha.
        apply Hnone. rewrite Hstep. rewrite bool_decide_eq_true_2 by tauto. reflexivity.
      * apply (Hgone v i p_header Hi); [|exact Hv].
        replace (S p + i)%nat with (p + S i)%nat by lia. exact Ha.
    + intros v Hv. rewrite Hkeep.
      * rewrite Hstep. rewrite bool_decide_eq_false_2; [reflexivity|].
        intros [Ha Hin]. apply (Hv 0%nat h); [reflexivity | | exact Hin].
        rewrite Nat.add_0_r. exact Ha.
      * intros i p_header Hi Ha. apply (Hv (S i) p_header); [exact Hi|].
        replace (p + S i)%nat with (S p + i)%nat by lia. exact Ha.
    + intros v Hv. apply Hnone. rewrite Hstep.
      destruct (bool_decide _); [reflexivity | exact Hv].
Qed.

(** The cleanup of a successful load, run on a kernel that has the page
    table that the load left, gives back the page table of before the load. *)
Lemma release_after_load_table content flags allocated_segments k segs' k1 k2 :
  length allocated_segments = e_phnum content ->
  allocate_segments content allocated_segments flags k = (false, segs', k1) ->
  page_table k2 = page_table k1 ->
  Forall (fun ok => ok = true) (unmap_script k2) ->
  page_table (release_segments content segs' k2) = page_table k.
Proof.
  intros Hlen Hload Hsame Hok.
  unfold allocate_segments, e_phnum in *.
  destruct (allocate_from_pages _ _ _ _ _ _ _ _ Hload ltac:(lia))
    as (Hu & Habsent & Hother & Hslots).
  pose proof (LoaderProofs.allocate_from_spec content flags 0
                (program_header_table content) allocated_segments k ltac:(lia)) as Hspec.
  rewrite Hload in Hspec. destruct Hspec as (Hlen' & _).
  destruct (release_from_table 0 (program_header_table content) segs' k2 Hok)
    as (Hgone & Hkeep & _).
  unfold release_segments. apply map_eq. intros v.
  assert (Hslot : forall i p_header, program_header_table content !! i = Some p_header ->
            (segs' !!! i <> 0 <-> p_type p_header = 1)).
  { intros i p_header Hi.
    destruct (lookup_lt_is_Some_2 segs' i) as [a Ha].
    { apply lookup_lt_Some in Hi. lia. }
    rewrite (list_lookup_total_correct _ _ _ Ha). apply (Hslots i p_header a Hi Ha). }
  destruct (decide (Exists (fun p_header => p_type p_header = 1
                                            /\ v ∈ segment_pages p_header)
                           (program_header_table content))) as [Hyes | Hno].
  - apply Exists_exists in Hyes as (p_header & Hin & Hty & Hv).
    rewrite (Habsent v p_header Hin Hty Hv).
    apply list_elem_of_lookup in Hin as [i Hi].
    apply (Hgone v i p_header Hi); [|exact Hv]. apply (Hslot i p_header Hi), Hty.
  - rewrite Hkeep, Hsame.
    + apply Hother. intros p_header Hin Hty Hv. apply Hno.
      apply Exists_exists. eauto.
    + intros i p_header Hi Ha Hv. apply Hno. apply Exists_exists.
      exists p_header. split_and!.
      * apply list_elem_of_lookup. eauto.
      * apply (Hslot i p_header Hi), Ha.
      * exact Hv.
Qed.

(** The cleanup of a load, run on a kernel that holds no more blocks than
    the load left, leaves only blocks that were held before the load. *)
Lemma release_after_load_heap content flags allocated_segments k failed segs' k1 k2 :
  length allocated_segments = e_phnum content ->
  allocate_segments content allocated_segments flags k = (failed, segs', k1) ->
  heap k2 ⊆ heap k1 ->
  heap (release_segments content segs' k2) ⊆ heap k.
Proof.
  intros Hlen Hload Hsub. unfold allocate_segments, release_segments, e_phnum in *.
  pose proof (LoaderProofs.allocate_from_spec content flags 0
                (program_header_table content) allocated_segments k ltac:(lia)) as H.
  rewrite Hload in H. destruct H as (_ & _ & Hheap).
  intros a Ha. pose proof Ha as Ha'.
  apply LoaderProofs.release_from_heap_subseteq in Ha'. apply Hsub in Ha'.
  destruct (Hheap a Ha') as [Hk | (Hnz & q & Hq & Hs)]; [exact Hk|].
  exfalso. revert Ha. apply LoaderProofs.release_from_heap_gone; [|exact Hnz].
  eapply LoaderProofs.slots_from_lookup; eassumption.
Qed.

(** X7: when the load of an image succeeds and the mapper refuses no unmap,
    the cleanup gives back the page table as it was before the load, and the
    allocator holds no block that it did not hold before. *)
Theorem load_then_release_restores content flags allocated_segments k segs' k' :
  length allocated_segments = e_phnum content ->
  allocate_segments content allocated_segments flags k = (false, segs', k') ->
  Forall (fun ok => ok = true) (unmap_script k) ->
  page_table (release_segments content segs' k') = page_table k
  /\ heap (release_segments content segs' k') ⊆ heap k.
Proof.
  intros Hlen Hload Hok. split.
  - apply (release_after_load_table content flags allocated_segments k segs' k' k' Hlen Hload);
      [reflexivity|].
    unfold allocate_segments, e_phnum in *.
    destruct (allocate_from_pages _ _ _ _ _ _ _ _ Hload ltac:(lia)) as (-> & _).
    exact Hok.
  - apply (release_after_load_heap content flags allocated_segments k false segs' k' k' Hlen Hload).
    reflexivity.
Qed.

Lemma load_then_release_restores_witness :
  let k := fresh_kernel [0x300010; 0x310000] in
  let k' := (allocate_segments two_segments stale_handles user_flags k).2 in
  page_table (release_segments two_segments [0x300010; 0x310000; 0] k') = page_table k
  /\ heap (release_segments two_segments [0x300010; 0x310000; 0] k') ⊆ heap k.
Proof.
  apply (load_then_release_restores two_segments user_flags stale_handles
           (fresh_kernel [0x300010; 0x310000])).
  - reflexivity.
  - reflexivity.
  - constructor.
Defined.

(** X8: after a successful load the slots that hold a block are exactly the
    slots of the loadable program headers ([p_type = 1]); every other slot is
    empty, whatever the new array held. *)
Theorem loaded_handles_mark_loadable content flags allocated_segments k segs' k' :
  length allocated_segments = e_phnum content ->
  allocate_segments content allocated_segments flags k = (false, segs', k') ->
  length segs' = e_phnum content
  /\ forall i p_header, program_header_table content !! i = Some p_header ->
       exists a, segs' !! i = Some a /\ (a <> 0 <-> p_type p_header = 1).
Proof.
  intros Hlen Hload. unfold allocate_segments, e_phnum in *.
  destruct (allocate_from_pages _ _ _ _ _ _ _ _ Hload ltac:(lia)) as (_ & _ & _ & Hslots).
  pose proof (LoaderProofs.allocate_from_spec content flags 0
                (program_header_table content) allocated_segments k ltac:(lia)) as Hspec.
  rewrite Hload in Hspec. destruct Hspec as (Hlen' & _).
  split; [congruence|]. intros i p_header Hi.
  destruct (lookup_lt_is_Some_2 segs' i) as [a Ha].
  { apply lookup_lt_Some in Hi. lia. }
  exists a. split; [exact Ha|]. apply (Hslots i p_header a Hi Ha).
Qed.

Lemma loaded_handles_mark_loadable_witness :
  let k := fresh_kernel [0x300010; 0x310000] in
  length [0x300010; 0x310000; 0] = e_phnum two_segments
  /\ forall i p_header, program_header_table two_segments !! i = Some p_header ->
       exists a, [0x300010; 0x310000; 0] !! i = Some a
                 /\ (a <> 0 <-> p_type p_header = 1).
Proof.
  apply (loaded_handles_mark_loadable two_segments user_flags stale_handles
           (fresh_kernel [0x300010; 0x310000]) _
           (allocate_segments two_segments stale_handles user_flags
              (fresh_kernel [0x300010; 0x310000])).2).
  - reflexivity.
  - reflexivity.
Defined.

(** *** The user stack *)

(** X9: when [allocate_user_stack] returns a block, none of the pages of the
    stack was mapped before, the block is the one the allocator gave and is
    now held, the pages are mapped to the first page boundary of the block,
    and the [stack_size] bytes from the stack address on are zero while all
    other memory is as before. *)
Theorem user_stack_allocated stack_address stack_size flags k memory k' :
  allocate_user_stack stack_address stack_size flags k = (memory, k') ->
  memory <> 0 ->
  let l := layout_of stack_address stack_size in
  let memory_start := wrap64 (aligned_memory_of memory + left_padding l) in
  (forall v, v ∈ page_range (first_page l) (pages l) -> page_table k !! v = None)
  /\ heap k' = {[memory]} ∪ heap k
  /\ trace k' = trace k ++ [Malloc (bytes l) memory;
                            MapPages (first_page l) (aligned_memory_of memory)
                                     (pages l) flags true]
  /\ (forall i, 0 <= i < stack_size -> ram k' (memory_start + i) = 0)
  /\ (forall a, ~ (memory_start <= a < memory_start + stack_size) -> ram k' a = ram k a).
Proof.
  intros H Hnz l memory_start. subst l memory_start. unfold allocate_user_stack in H.
  destruct (some_page_present k _ _) eqn:Hfree.
  { injection H as <- _. contradiction. }
  unfold k_malloc in H. cbv zeta in H.
  destruct (hd 0 (malloc_script k) =? 0) eqn:Hm.
  { injection H as <- _. contradiction. }
  unfold map_pages in H. cbv zeta in H. cbn [map_script] in H.
  destruct (hd true (map_script k)); cbn [negb] in H.
  2: { injection H as <- _. contradiction. }
  injection H as <- <-. cbn [store heap trace ram]. split_and!.
  - intros v Hv. pose proof (no_page_present _ _ _ Hfree v Hv) as Hnp.
    unfold page_present in Hnp. apply bool_decide_eq_false in Hnp.
    cbn [first_page layout_of] in Hv. rewrite (page_range_aligned _ _ _ Hv) in Hnp.
    apply eq_None_not_Some. exact Hnp.
  - reflexivity.
  - rewrite <- app_assoc. reflexivity.
  - intros i Hi. unfold fill_n. cbn [left_padding layout_of].
    rewrite bool_decide_eq_true_2 by lia. reflexivity.
  - intros a Ha. unfold fill_n. cbn [left_padding layout_of] in Ha |- *.
    rewrite bool_decide_eq_false_2 by exact Ha. reflexivity.
Qed.

Lemma user_stack_allocated_witness :
  let k := fresh_kernel [0x320000] in
  let l := layout_of 0x500000 (PAGE_SIZE * 2) in
  let k' := (allocate_user_stack 0x500000 (PAGE_SIZE * 2) user_flags k).2 in
  let memory_start := wrap64 (aligned_memory_of 0x320000 + left_padding l) in
  (forall v, v ∈ page_range (first_page l) (pages l) -> page_table k !! v = None)
  /\ heap k' = {[0x320000]} ∪ heap k
  /\ trace k' = trace k ++ [Malloc (bytes l) 0x320000;
                            MapPages (first_page l) (aligned_memory_of 0x320000)
                                     (pages l) user_flags true]
  /\ (forall i, 0 <= i < PAGE_SIZE * 2 -> ram k' (memory_start + i) = 0)
  /\ (forall a, ~ (memory_start <= a < memory_start + PAGE_SIZE * 2) ->
        ram k' a = ram k a).
Proof.
  apply (user_stack_allocated 0x500000 (PAGE_SIZE * 2) user_flags
           (fresh_kernel [0x320000]) 0x320000).
  - reflexivity.
  - discriminate.
Defined.

Lemma freed_unchanged evs evs' :
  freed evs' = [] -> freed (evs ++ evs') = freed evs.
Proof. intros H. rewrite LoaderProofs.freed_app, H. apply app_nil_r. Qed.

Lemma unmapped_unchanged evs evs' :
  unmapped evs' = [] -> unmapped (evs ++ evs') = unmapped evs.
Proof. intros H. rewrite LoaderProofs.unmapped_app, H. apply app_nil_r. Qed.

(** X10: [allocate_user_stack] returns the null pointer exactly when a page
    of the stack is already mapped, the allocator fails or the mapper
    refuses; it never frees anything; when it returns null it has left the
    memory and the page table as they were, and the block of a mapping that
    was refused stays allocated. *)
Theorem user_stack_refused stack_address stack_size flags k :
  let '(memory, k') := allocate_user_stack stack_address stack_size flags k in
  let l := layout_of stack_address stack_size in
  (memory = 0 <-> stack_blocked stack_address stack_size k)
  /\ freed (trace k') = freed (trace k)
  /\ (memory = 0 ->
      ram k' = ram k
      /\ page_table k' = page_table k
      /\ heap k' = (if some_page_present k (first_page l) (pages l)
                       || (hd 0 (malloc_script k) =? 0)
                    then heap k
                    else {[hd 0 (malloc_script k)]} ∪ heap k)).
Proof.
  unfold allocate_user_stack, stack_blocked. cbv zeta.
  destruct (some_page_present k _ _) eqn:Hfree.
  { cbn [orb]. split_and!.
    - split; [|reflexivity]. intros _. left.
      apply LoaderProofs.some_page_present_iff. exact Hfree.
    - cbn [k_print_line emit trace]. apply freed_unchanged. reflexivity.
    - intros _. split_and!; reflexivity. }
  assert (Hnone : ~ exists v,
            v ∈ page_range (first_page (layout_of stack_address stack_size))
                           (pages (layout_of stack_address stack_size))
            /\ page_present k v = true).
  { intros H. apply LoaderProofs.some_page_present_iff in H. congruence. }
  unfold k_malloc. cbv zeta.
  destruct (Z.eqb_spec (hd 0 (malloc_script k)) 0) as [Hm|Hm].
  { cbn [orb]. split_and!.
    - split; [intros _; right; left; exact Hm | reflexivity].
    - cbn [k_print_line emit trace]. rewrite <- app_assoc. apply freed_unchanged. reflexivity.
    - intros _. split_and!; reflexivity. }
  unfold map_pages. cbv zeta. cbn [map_script trace heap page_table ram].
  destruct (hd true (map_script k)) eqn:Hmap; cbn [negb orb].
  - split_and!.
    + split; [intros H0; contradiction|].
      intros [H | [H | H]]; [contradiction | contradiction | discriminate].
    + cbn [store trace]. rewrite <- app_assoc. apply freed_unchanged. reflexivity.
    + intros H0. contradiction.
  - split_and!.
    + split; [intros _; right; right; reflexivity | reflexivity].
    + cbn [k_print_line emit trace]. rewrite <- !app_assoc. apply freed_unchanged. reflexivity.
    + intros _. split_and!; reflexivity.
Qed.

(** *** The commands [exec] and [execin] *)

Lemma all_true_tl (l : list bool) :
  Forall (fun ok => ok = true) l -> Forall (fun ok => ok = true) (tl l).
Proof. intros H. destruct H; [constructor | assumption]. Qed.

Lemma all_true_hd (l : list bool) :
  Forall (fun ok => ok = true) l -> hd true l = true.
Proof. intros H. destruct H; [reflexivity | assumption]. Qed.

(** The load frees and unmaps nothing and gives no block back. *)
Lemma allocate_segment_quiet content flags p p_header allocated_segments k :
  let '(_, _, k') := allocate_segment content flags p p_header allocated_segments k in
  freed (trace k') = freed (trace k)
  /\ unmapped (trace k') = unmapped (trace k)
  /\ heap k ⊆ heap k'
  /\ (Forall (fun ok => ok = true) (map_script k) ->
      Forall (fun ok => ok = true) (map_script k')).
Proof.
  unfold allocate_segment.
  destruct (p_type p_header =? 1); [|split_and!; done].
  destruct (some_page_present k _ _).
  { cbn [k_print_line emit trace heap map_script].
    split_and!; [apply freed_unchanged | apply unmapped_unchanged | |]; done. }
  unfold k_malloc. cbv zeta.
  assert (Hsub : heap k ⊆ (if hd 0 (malloc_script k) =? 0 then heap k
                           else {[hd 0 (malloc_script k)]} ∪ heap k)).
  { destruct (_ =? 0); [done|]. apply union_subseteq_r. }
  destruct (hd 0 (malloc_script k) =? 0) eqn:Hm.
  { cbn [k_print_line emit trace heap map_script]. rewrite <- app_assoc.
    split_and!; [apply freed_unchanged | apply unmapped_unchanged | |]; done. }
  unfold map_pages. cbv zeta. cbn [map_script trace heap].
  destruct (hd true (map_script k)); cbn [negb].
  - cbn [store trace heap map_script]. rewrite <- app_assoc.
    split_and!; [apply freed_unchanged | apply unmapped_unchanged | | apply all_true_tl];
      done.
  - cbn [k_print_line emit trace heap map_script]. rewrite <- !app_assoc.
    split_and!; [apply freed_unchanged | apply unmapped_unchanged | | apply all_true_tl];
      done.
Qed.

Lemma allocate_from_quiet content flags p headers allocated_segments k :
  let '(_, _, k') := allocate_from content flags p headers allocated_segments k in
  freed (trace k') = freed (trace k)
  /\ unmapped (trace k') = unmapped (trace k)
  /\ heap k ⊆ heap k'
  /\ (Forall (fun ok => ok = true) (map_script k) ->
      Forall (fun ok => ok = true) (map_script k')).
Proof.
  revert p allocated_segments k.
  induction headers as [|h rest IH]; intros p allocated_segments k; [split_and!; done|].
  cbn [allocate_from].
  pose proof (allocate_segment_quiet content flags p h allocated_segments k) as Hstep.
  destruct (allocate_segment content flags p h allocated_segments k)
    as [[failed segs1] k1].
  destruct failed; [exact Hstep|].
  specialize (IH (S p) segs1 k1).
  destruct (allocate_from content flags (S p) rest segs1 k1) as [[failed segs2] k2].
  destruct Hstep as (Hf1 & Hu1 & Hh1 & Hm1), IH as (Hf2 & Hu2 & Hh2 & Hm2).
  split_and!; [congruence | congruence | etrans; eassumption | tauto].
Qed.

(** A user stack that is refused by a page or by the allocator leaves the
    allocator as it was. *)
Lemma user_stack_null_heap stack_address stack_size flags k k' :
  Forall (fun ok => ok = true) (map_script k) ->
  allocate_user_stack stack_address stack_size flags k = (0, k') ->
  heap k' = heap k.
Proof.
  intros Hok H. unfold allocate_user_stack in H.
  destruct (some_page_present k _ _); [injection H as <-; reflexivity|].
  unfold k_malloc in H. cbv zeta in H.
  destruct (Z.eqb_spec (hd 0 (malloc_script k)) 0) as [Hm|Hm].
  { injection H as <-. reflexivity. }
  unfold map_pages in H. cbv zeta in H. cbn [map_script] in H.
  rewrite (all_true_hd _ Hok) in H. cbn [negb] in H.
  injection H as H _. contradiction.
Qed.

(** X11: when [exec_command] gives the processor to the program, the file
    was a valid image whose load succeeded and a stack was allocated; the
    program starts at [e_entry] with the stack pointer 64 bytes below the
    top of the two stack pages; and the command has freed and unmapped
    nothing: every block of the image is still allocated. *)
Theorem exec_transfer_keeps_image sys params k k' entry sp :
  exec_command sys params k = Transferred k' entry sp ->
  let content := read_file sys (params !!! 1%nat) in
  entry = e_entry content
  /\ sp = 0x501FC0
  /\ content_size content <> 0
  /\ is_valid sys content = true
  /\ freed (trace k') = freed (trace k)
  /\ unmapped (trace k') = unmapped (trace k)
  /\ heap k ⊆ heap k'
  /\ exists segs k1 stack,
       allocate_segments content (new_array sys (e_phnum content)) user_flags k
       = (false, segs, k1)
       /\ allocate_user_stack 0x500000 (PAGE_SIZE * 2) user_flags k1 = (stack, k')
       /\ stack <> 0.
Proof.
  intros H content. unfold exec_command in H.
  destruct (length params <? 2)%nat; [discriminate|].
  destruct (negb (mounted_partition sys) || negb (mounted_disk sys)); [discriminate|].
  unfold read_elf_file in H. fold content in H.
  destruct (Z.eqb_spec (content_size content) 0) as [Hz|Hz]; [discriminate|].
  destruct (is_valid sys content) eqn:Hvalid; cbn [negb] in H; [|discriminate].
  pose proof (allocate_from_quiet content user_flags 0 (program_header_table content)
                (new_array sys (e_phnum content)) k) as Hload.
  unfold allocate_segments in H |- *.
  destruct (allocate_from content user_flags 0 (program_header_table content)
              (new_array sys (e_phnum content)) k) as [[failed segs] k1].
  destruct failed; cbn [negb] in H; [discriminate|].
  destruct (allocate_user_stack 5242880 (PAGE_SIZE * 2) user_flags k1)
    as [stack k2] eqn:Hus.
  destruct (Z.eqb_spec stack 0) as [Hs|Hs]; cbn [negb] in H; [discriminate|].
  injection H as <- <- <-.
  destruct Hload as (Hf & Hu & Hh & _).
  assert (Hquiet : freed (trace k2) = freed (trace k1)
                   /\ unmapped (trace k2) = unmapped (trace k1)
                   /\ heap k1 ⊆ heap k2).
  { revert Hus. unfold allocate_user_stack.
    destruct (some_page_present k1 _ _); [intros [= <- _]; contradiction|].
    unfold k_malloc. cbv zeta.
    destruct (hd 0 (malloc_script k1) =? 0) eqn:Hm; [intros [= <- _]; contradiction|].
    unfold map_pages. cbv zeta. cbn [map_script trace heap].
    destruct (hd true (map_script k1)); cbn [negb]; [|intros [= <- _]; contradiction].
    intros [= _ <-]. cbn [store trace heap]. rewrite <- app_assoc.
    split_and!; [apply freed_unchanged | apply unmapped_unchanged | apply union_subseteq_r];
      done. }
  destruct Hquiet as (Hf2 & Hu2 & Hh2).
  split_and!; try reflexivity; try assumption; try congruence.
  - etrans; eassumption.
  - exists segs, k1, stack. split_and!; [reflexivity | exact Hus | exact Hs].
Qed.

Lemma exec_transfer_keeps_image_witness :
  let k := fresh_kernel [0x300010; 0x310000; 0x320000] in
  match exec_command (sample_system two_segments) ["exec"; "prog"] k with
  | Transferred k' entry sp =>
      entry = e_entry two_segments
      /\ sp = 0x501FC0
      /\ freed (trace k') = freed (trace k)
      /\ unmapped (trace k') = unmapped (trace k)
      /\ heap k ⊆ heap k'
  | Returned _ => False
  end.
Proof.
  cbv zeta.
  assert (Ht : match exec_command (sample_system two_segments) ["exec"; "prog"]
                       (fresh_kernel [0x300010; 0x310000; 0x320000]) with
               | Transferred _ _ _ => true
               | Returned _ => false
               end = true) by (vm_compute; reflexivity).
  destruct (exec_command (sample_system two_segments) ["exec"; "prog"]
              (fresh_kernel [0x300010; 0x310000; 0x320000]))
    as [k' | k' entry sp] eqn:H; [discriminate|].
  destruct (exec_transfer_keeps_image (sample_system two_segments) ["exec"; "prog"]
              (fresh_kernel [0x300010; 0x310000; 0x320000]) k' entry sp H)
    as (He & Hsp & _ & _ & Hf & Hu & Hh & _).
  split_and!; assumption.
Defined.

(** X12: when the mapper refuses no mapping and [exec_command] returns to the
    shell, whatever the reason (no file name, nothing mounted, a bad file, a
    failed load, no stack), the allocator holds no block that it did not hold
    before the command. *)
Theorem exec_return_leaves_no_block sys params k k' :
  Forall (fun ok => ok = true) (map_script k) ->
  exec_command sys params k = Returned k' ->
  heap k' ⊆ heap k.
Proof.
  intros Hok H. unfold exec_command in H.
  destruct (length params <? 2)%nat; [injection H as <-; done|].
  destruct (negb (mounted_partition sys) || negb (mounted_disk sys));
    [injection H as <-; done|].
  unfold read_elf_file in H.
  set (content := read_file sys (params !!! 1%nat)) in *.
  destruct (content_size content =? 0); [injection H as <-; done|].
  destruct (is_valid sys content); cbn [negb] in H; [|injection H as <-; done].
  pose proof (allocate_from_quiet content user_flags 0 (program_header_table content)
                (new_array sys (e_phnum content)) k) as Hquiet.
  destruct (allocate_segments content (new_array sys (e_phnum content)) user_flags k)
    as [[failed segs] k1] eqn:Hload.
  unfold allocate_segments in Hload. rewrite Hload in Hquiet.
  destruct Hquiet as (_ & _ & _ & Hok1). specialize (Hok1 Hok).
  assert (Hlen : length (new_array sys (e_phnum content)) = e_phnum content)
    by apply LoaderProofs.new_array_length.
  destruct failed; cbn [negb] in H.
  - injection H as <-.
    apply (release_after_load_heap content user_flags _ k true segs k1 _ Hlen Hload). done.
  - destruct (allocate_user_stack 5242880 (PAGE_SIZE * 2) user_flags k1)
      as [stack k2] eqn:Hus.
    destruct (Z.eqb_spec stack 0) as [->|Hs]; cbn [negb] in H; [|discriminate].
    injection H as <-.
    apply (release_after_load_heap content user_flags _ k false segs k1 _ Hlen Hload).
    cbn [k_print_line emit heap].
    rewrite (user_stack_null_heap _ _ _ _ _ Hok1 Hus). done.
Qed.

Lemma exec_return_leaves_no_block_witness :
  exists k',
    exec_command (sample_system two_segments) ["exec"; "prog"] premapped_kernel
    = Returned k'
    /\ heap k' ⊆ heap premapped_kernel.
Proof.
  eexists. split; [reflexivity|].
  apply (exec_return_leaves_no_block (sample_system two_segments) ["exec"; "prog"]
           premapped_kernel); [constructor | reflexivity].
Defined.

(** X13: [execin_command] on a valid image whose load succeeds calls the entry
    point once, on the kernel that the load left, prints the value it
    returned and runs the cleanup; when the program leaves the page table,
    the allocator and the answers of the mapper alone and no unmap is
    refused, the page table after the command is the one before it and no
    block of the image stays allocated. *)
Theorem execin_restores sys call params k segs k1 :
  let content := read_file sys (params !!! 1%nat) in
  (2 <= length params)%nat ->
  mounted_partition sys = true -> mounted_disk sys = true ->
  content_size content <> 0 -> is_valid sys content = true ->
  allocate_segments content (new_array sys (e_phnum content)) kernel_flags k
  = (false, segs, k1) ->
  let '(return_code, k2) := call (e_entry content) k1 in
  let k' := execin_command sys call params k in
  k' = release_segments content segs
         (k_print ("Returned " +:+ pretty return_code
                   +:+ String (Ascii.ascii_of_nat 10) EmptyString) k2)
  /\ (page_table k2 = page_table k1 -> heap k2 = heap k1 ->
      Forall (fun ok => ok = true) (unmap_script k2) ->
      page_table k' = page_table k /\ heap k' ⊆ heap k).
Proof.
  intros content Hn Hmp Hmd Hsize Hvalid Hload.
  destruct (call (e_entry content) k1) as [return_code k2] eqn:Hcall.
  cbv zeta.
  assert (Hrun : execin_command sys call params k
                 = release_segments content segs
                     (k_print ("Returned " +:+ pretty return_code
                               +:+ String (Ascii.ascii_of_nat 10) EmptyString) k2)).
  { unfold execin_command.
    apply Nat.ltb_ge in Hn. rewrite Hn, Hmp, Hmd. cbn [negb orb].
    unfold read_elf_file. fold content.
    apply Z.eqb_neq in Hsize. rewrite Hsize, Hvalid. cbn [negb].
    rewrite Hload. cbn [negb]. rewrite Hcall. reflexivity. }
  split; [exact Hrun|].
  intros Hpt Hheap Hok. rewrite Hrun.
  assert (Hlen : length (new_array sys (e_phnum content)) = e_phnum content)
    by apply LoaderProofs.new_array_length.
  split.
  - apply (release_after_load_table content kernel_flags _ k segs k1 _ Hlen Hload).
    + exact Hpt.
    + exact Hok.
  - apply (release_after_load_heap content kernel_flags _ k false segs k1 _ Hlen Hload).
    cbn [k_print emit heap]. rewrite Hheap. done.
Qed.

Lemma execin_restores_witness :
  let sys := sample_system two_segments in
  let call := fun (_ : Z) (k0 : kernel) => (7, k0) in
  let k := fresh_kernel [0x300010; 0x310000] in
  let k1 := (allocate_segments two_segments (new_array sys 3) kernel_flags k).2 in
  let k' := execin_command sys call ["execin"; "prog"] k in
  k' = release_segments two_segments [0x300010; 0x310000; 0]
         (k_print ("Returned " +:+ pretty 7 +:+ String (Ascii.ascii_of_nat 10) EmptyString) k1)
  /\ (page_table k1 = page_table k1 -> heap k1 = heap k1 ->
      Forall (fun ok => ok = true) (unmap_script k1) ->
      page_table k' = page_table k /\ heap k' ⊆ heap k).
Proof.
  apply (execin_restores (sample_system two_segments) (fun _ k0 => (7, k0))
           ["execin"; "prog"] (fresh_kernel [0x300010; 0x310000])
           [0x300010; 0x310000; 0]
           (allocate_segments two_segments (new_array (sample_system two_segments) 3)
              kernel_flags (fresh_kernel [0x300010; 0x310000])).2).
  - cbn. lia.
  - reflexivity.
  - reflexivity.
  - discriminate.
  - reflexivity.
  - reflexivity.
Defined.

End LoaderExtras.

(** ** Properties of the shell *)

Module CommandProofs.
Import Commands.

Local Open Scope nat_scope.

(** *** Files and directories *)

Lemma find_file_some files name f :
  find_file files name = Some f ->
  exists before after,
    files = before ++ f :: after
    /\ file_name f = name
    /\ Forall (fun g => file_name g <> name) before.
Proof.
  induction files as [|g rest IH]; [discriminate|].
  cbn [find_file]. destruct (String.eqb_spec (file_name g) name) as [Heq|Hne].
  - intros [= ->]. exists [], rest. split_and!; [reflexivity | exact Heq | constructor].
  - intros H. destruct (IH H) as (before & after & -> & Hname & Hall).
    exists (g :: before), after. split_and!; [reflexivity | exact Hname |].
    constructor; assumption.
Qed.

Lemma find_file_none files name :
  find_file files name = None <-> Forall (fun g => file_name g <> name) files.
Proof.
  induction files as [|g rest IH]; [split; [constructor | reflexivity]|].
  cbn [find_file]. destruct (String.eqb_spec (file_name g) name) as [Heq|Hne].
  - split; [discriminate|]. intros H. inversion H. contradiction.
  - rewrite IH. split; [intros H; constructor; assumption|].
    intros H. inversion H. assumption.
Qed.

(** X14: [find_file] returns the first file of the directory that has the
    name asked for, and nothing exactly when no file has it. *)
Theorem find_file_first files name :
  (forall f, find_file files name = Some f ->
     exists before after,
       files = before ++ f :: after
       /\ file_name f = name
       /\ Forall (fun g => file_name g <> name) before)
  /\ (find_file files name = None <-> Forall (fun g => file_name g <> name) files).
Proof. split; [intros f; apply find_file_some | apply find_file_none]. Qed.

Lemma removelast_snoc {A} (l : list A) (x : A) : removelast (l ++ [x]) = l.
Proof. apply removelast_last. Qed.

(** X15: with a disk mounted, [cd] into a directory of the current directory
    appends its name, and [cd ..] after it gives the current directory back;
    [cd] to a name that is a plain file or that does not exist, and [cd ..] in
    the root, leave the current directory as it is. *)
Theorem cd_there_and_back d name current_directory :
  nothing_mounted d = false ->
  name <> ".."%string ->
  let '(inside, outs) := cd d ["cd"; name]%string current_directory in
  match find_file (ls d current_directory) name with
  | Some f =>
      if directory f then
        inside = current_directory ++ [name] /\ outs = []
        /\ cd d ["cd"; ".."]%string inside = (current_directory, [])
      else
        inside = current_directory
        /\ outs = [PrintStr "cd: Not a directory: "; PrintLine name]
  | None =>
      inside = current_directory
      /\ outs = [PrintStr "cd: No such file or directory: "; PrintLine name]
  end
  /\ cd d ["cd"; ".."]%string [] = ([], []).
Proof.
  intros Hm Hname.
  assert (Hup : forall l, cd d ["cd"; ".."]%string l
                          = if 0 <? length l then (removelast l, []) else (l, [])).
  { intros l. unfold cd. rewrite Hm. reflexivity. }
  assert (Hin : cd d ["cd"; name]%string current_directory
                = match find_file (ls d current_directory) name with
                  | Some f =>
                      if directory f then (current_directory ++ [name], [])
                      else (current_directory,
                            [PrintStr "cd: Not a directory: "; PrintLine name])
                  | None =>
                      (current_directory,
                       [PrintStr "cd: No such file or directory: "; PrintLine name])
                  end).
  { unfold cd. rewrite Hm. cbn [length Nat.eqb].
    change (["cd"; name]%string !!! 1) with name.
    apply String.eqb_neq in Hname. rewrite Hname. reflexivity. }
  rewrite Hin, Hup.
  destruct (find_file (ls d current_directory) name) as [f|].
  - destruct (directory f).
    + split; [|reflexivity]. split_and!; [reflexivity | reflexivity |].
      rewrite Hup, length_app. cbn [length].
      replace (0 <? length current_directory + 1) with true
        by (symmetry; apply Nat.ltb_lt; lia).
      rewrite removelast_snoc. reflexivity.
    + split; [split|]; reflexivity.
  - split; [split|]; reflexivity.
Qed.

Lemma cd_there_and_back_witness :
  let '(inside, outs) := cd sample_disks ["cd"; "bin"]%string ["usr"%string] in
  match find_file (ls sample_disks ["usr"%string]) "bin" with
  | Some f =>
      if directory f then
        inside = ["usr"%string] ++ ["bin"%string] /\ outs = []
        /\ cd sample_disks ["cd"; ".."]%string inside = (["usr"%string], [])
      else
        inside = ["usr"%string]
        /\ outs = [PrintStr "cd: Not a directory: "; PrintLine "bin"]
  | None =>
      inside = ["usr"%string]
      /\ outs = [PrintStr "cd: No such file or directory: "; PrintLine "bin"]
  end
  /\ cd sample_disks ["cd"; ".."]%string [] = ([], []).
Proof.
  apply (cd_there_and_back sample_disks "bin" ["usr"%string]).
  - reflexivity.
  - discriminate.
Defined.

(** *** Creating, removing and mounting *)

(** X16: called with its own name as first parameter, [mkdir] and [touch]
    reach the disk with a name exactly when a disk is mounted, the name is the
    parameter that follows and no file of the current directory has it yet. *)
Theorem create_only_fresh_names d params current_directory name :
  params <> [] ->
  (DiskMkdir name ∈ mkdir_cmd d params current_directory
   <-> nothing_mounted d = false /\ length params <> 1 /\ params !!! 1 = name
       /\ Forall (fun g => file_name g <> name) (ls d current_directory))
  /\ (DiskTouch name ∈ touch_cmd d params current_directory
      <-> nothing_mounted d = false /\ length params <> 1 /\ params !!! 1 = name
          /\ Forall (fun g => file_name g <> name) (ls d current_directory)).
Proof.
  intros _. unfold mkdir_cmd, touch_cmd. cbv zeta.
  destruct (nothing_mounted d).
  { split; (split; [intros H; in_outputs; discriminate | intros (H & _); discriminate]). }
  destruct (Nat.eqb_spec (length params) 1) as [Hl|Hl].
  { split; (split; [intros H; in_outputs; discriminate | intros (_ & H & _); contradiction]). }
  split.
  - destruct (find_file (ls d current_directory) (params !!! 1)) as [f|] eqn:Hfind.
    + split; [intros H; in_outputs; discriminate|].
      intros (_ & _ & <- & Hnone). apply find_file_none in Hnone. congruence.
    + split.
      * intros H. destruct (negb _); in_outputs; try discriminate;
          injection H as Heq; subst name; split_and!; try done; apply find_file_none, Hfind.
      * intros (_ & _ & <- & _). apply elem_of_app. left. apply elem_of_cons. left. reflexivity.
  - destruct (find_file (ls d current_directory) (params !!! 1)) as [f|] eqn:Hfind.
    + split; [intros H; in_outputs; discriminate|].
      intros (_ & _ & <- & Hnone). apply find_file_none in Hnone. congruence.
    + split.
      * intros H. destruct (negb _); in_outputs; try discriminate;
          injection H as Heq; subst name; split_and!; try done; apply find_file_none, Hfind.
      * intros (_ & _ & <- & _). apply elem_of_app. left. apply elem_of_cons. left. reflexivity.
Qed.

Lemma create_only_fresh_names_witness :
  (DiskMkdir "tmp" ∈ mkdir_cmd sample_disks ["mkdir"; "tmp"]%string []
   <-> nothing_mounted sample_disks = false
       /\ length ["mkdir"; "tmp"]%string <> 1
       /\ ["mkdir"; "tmp"]%string !!! 1 = "tmp"%string
       /\ Forall (fun g => file_name g <> "tmp"%string) (ls sample_disks []))
  /\ (DiskTouch "tmp" ∈ touch_cmd sample_disks ["mkdir"; "tmp"]%string []
      <-> nothing_mounted sample_disks = false
          /\ length ["mkdir"; "tmp"]%string <> 1
          /\ ["mkdir"; "tmp"]%string !!! 1 = "tmp"%string
          /\ Forall (fun g => file_name g <> "tmp"%string) (ls sample_disks [])).
Proof.
  apply (create_only_fresh_names sample_disks ["mkdir"; "tmp"]%string [] "tmp").
  discriminate.
Defined.

(** X17: called with its own name as first parameter, [rm] reaches the disk
    with a name exactly when a disk is mounted, the name is the parameter that
    follows and a file of the current directory has it. *)
Theorem rm_only_existing_names d params current_directory name :
  params <> [] ->
  DiskRm name ∈ rm_cmd d params current_directory
  <-> nothing_mounted d = false /\ length params <> 1 /\ params !!! 1 = name
      /\ exists f, f ∈ ls d current_directory /\ file_name f = name.
Proof.
  intros _. unfold rm_cmd. cbv zeta.
  destruct (nothing_mounted d).
  { split; [intros H; in_outputs; discriminate | intros (H & _); discriminate]. }
  destruct (Nat.eqb_spec (length params) 1) as [Hl|Hl].
  { split; [intros H; in_outputs; discriminate | intros (_ & H & _); contradiction]. }
  destruct (find_file (ls d current_directory) (params !!! 1)) as [f|] eqn:Hfind.
  - apply find_file_some in Hfind as (before & after & Hfiles & Hname & _).
    split.
    + intros H. destruct (negb _); in_outputs; try discriminate;
        injection H as Heq; subst name; split_and!; try done; exists f;
        (split; [rewrite Hfiles; apply elem_of_app; right; left | exact Hname]).
    + intros (_ & _ & <- & _). apply elem_of_app. left. apply elem_of_cons. left. reflexivity.
  - apply find_file_none in Hfind. split; [intros H; in_outputs; discriminate|].
    intros (_ & _ & <- & f & Hin & Hname). rewrite Forall_forall in Hfind.
    exfalso. apply (Hfind f Hin Hname).
Qed.

Lemma rm_only_existing_names_witness :
  DiskRm "notes" ∈ rm_cmd sample_disks ["rm"; "notes"]%string []
  <-> nothing_mounted sample_disks = false
      /\ length ["rm"; "notes"]%string <> 1
      /\ ["rm"; "notes"]%string !!! 1 = "notes"%string
      /\ exists f, f ∈ ls sample_disks [] /\ file_name f = "notes"%string.
Proof.
  apply (rm_only_existing_names sample_disks ["rm"; "notes"]%string [] "notes").
  discriminate.
Defined.

(** X18: [mount] mounts exactly when it has two arguments, the first names a
    disk that exists and is an ATA disk and the second a partition that exists
    on it; [unmount] unmounts exactly when something is mounted. *)
Theorem mount_only_known_partition d params disk partition :
  (DiskMount disk partition ∈ mount_cmd d params
   <-> length params = 3
       /\ disk = parse d (params !!! 1) /\ partition = parse d (params !!! 2)
       /\ disk_exists d disk = true /\ disk_is_ata d disk = true
       /\ partition_exists d disk partition = true)
  /\ (DiskUnmount ∈ unmount_cmd d <-> nothing_mounted d = false).
Proof.
  split.
  - unfold mount_cmd. cbv zeta.
    destruct (Nat.eqb_spec (length params) 1) as [Hl|Hl].
    { split; [|intros (H & _); lia].
      intros H. destruct (mounted_disk d), (mounted_partition d); in_outputs; discriminate. }
    destruct (Nat.eqb_spec (length params) 3) as [Hl3|Hl3]; cbn [negb].
    2: { split; [intros H; in_outputs; discriminate | intros (H & _); contradiction]. }
    destruct (disk_exists d (parse d (params !!! 1))) eqn:He.
    2: { split; [intros H; in_outputs; discriminate|].
         intros (_ & -> & _ & H & _). congruence. }
    destruct (disk_is_ata d (parse d (params !!! 1))) eqn:Ha; cbn [negb].
    2: { split; [intros H; in_outputs; discriminate|].
         intros (_ & -> & _ & _ & H & _). congruence. }
    destruct (partition_exists d (parse d (params !!! 1)) (parse d (params !!! 2))) eqn:Hp.
    + split.
      * intros H. in_outputs. injection H as Hdisk Hpartition. subst disk partition. split_and!; done.
      * intros (_ & -> & -> & _). left.
    + split; [intros H; in_outputs; discriminate|].
      intros (_ & -> & -> & _ & _ & H). congruence.
  - unfold unmount_cmd. destruct (nothing_mounted d).
    + split; [intros H; in_outputs; discriminate | discriminate].
    + split; [reflexivity | intros _; left].
Qed.

(** *** Listing *)

Lemma existsb_eqb_elem (flag : string) (params : list string) :
  existsb (String.eqb flag) params = bool_decide (flag ∈ params).
Proof.
  induction params as [|param rest IH]; cbn [existsb].
  - symmetry. apply bool_decide_eq_false. apply not_elem_of_nil.
  - rewrite IH. destruct (String.eqb_spec flag param) as [->|Hne]; cbn [orb].
    + symmetry. apply bool_decide_eq_true. left.
    + apply bool_decide_ext. rewrite elem_of_cons.
      split; [intros H; right; exact H | intros [H | H]; [congruence | exact H]].
Qed.

Lemma ls_options_flags params show_hidden_files list :
  ls_options params show_hidden_files list
  = (show_hidden_files || existsb (String.eqb "-a") params,
     list || existsb (String.eqb "-l") params).
Proof.
  revert show_hidden_files list.
  induction params as [|param rest IH]; intros show_hidden_files list;
    cbn [ls_options existsb].
  - rewrite !orb_false_r. reflexivity.
  - rewrite (String.eqb_sym "-a" param), (String.eqb_sym "-l" param).
    destruct (String.eqb_spec param "-a") as [->|Ha].
    + rewrite IH. cbn [orb]. rewrite orb_true_r. reflexivity.
    + destruct (String.eqb_spec param "-l") as [->|Hl]; rewrite IH; cbn [orb].
      * rewrite orb_true_r. reflexivity.
      * reflexivity.
Qed.

Lemma ls_files_visible files show_hidden_files list total :
  ls_files files show_hidden_files list total
  = (List.concat (List.map (ls_row list)
       (List.filter (fun f => negb (hidden f) || show_hidden_files) files)),
     total + length (List.filter (fun f => negb (hidden f) || show_hidden_files) files)).
Proof.
  revert total. induction files as [|f rest IH]; intros total; cbn [ls_files List.filter].
  - cbn. rewrite Nat.add_0_r. reflexivity.
  - destruct (hidden f), show_hidden_files; cbn [andb negb orb];
      rewrite IH; cbn [List.map List.concat length]; try reflexivity;
      f_equal; lia.
Qed.

(** X19: with a disk mounted, [ls] prints a row for each file of the current
    directory that is not hidden, or for every file when [-a] is among its
    arguments, in the long form when [-l] is among them, and the total it
    prints is the number of these files. *)
Theorem ls_lists_visible_files d params current_directory :
  nothing_mounted d = false ->
  let show_hidden_files := bool_decide ("-a"%string ∈ List.tl params) in
  let list := bool_decide ("-l"%string ∈ List.tl params) in
  let visible :=
    List.filter (fun f => negb (hidden f) || show_hidden_files)
                (ls d current_directory) in
  ls_cmd d params current_directory
  = List.concat (List.map (ls_row list) visible)
    ++ (if list then [] else [PrintChar "010"%char])
    ++ [Printf "Total: %u\n" [Num (Z.of_nat (length visible))]].
Proof.
  intros Hmounted. cbv zeta. unfold ls_cmd. rewrite Hmounted.
  assert (Hflags :
    (if 1 <? length params then ls_options (List.tl params) false false
     else (false, false))
    = (bool_decide ("-a"%string ∈ List.tl params),
       bool_decide ("-l"%string ∈ List.tl params))).
  { rewrite <- !existsb_eqb_elem.
    destruct (Nat.ltb_spec 1 (length params)) as [Hl|Hl].
    - rewrite ls_options_flags. reflexivity.
    - destruct params as [|name [|param rest]]; [reflexivity | reflexivity |].
      cbn [length] in Hl. lia. }
  rewrite Hflags. rewrite ls_files_visible. cbn [Nat.add].
  destruct (bool_decide ("-l"%string ∈ List.tl params)); reflexivity.
Qed.

Lemma ls_lists_visible_files_witness :
  let show_hidden_files := bool_decide ("-a"%string ∈ List.tl ["ls"; "-l"]%string) in
  let list := bool_decide ("-l"%string ∈ List.tl ["ls"; "-l"]%string) in
  let visible :=
    List.filter (fun f => negb (hidden f) || show_hidden_files)
                (ls sample_disks []) in
  ls_cmd sample_disks ["ls"; "-l"]%string []
  = List.concat (List.map (ls_row list) visible)
    ++ (if list then [] else [PrintChar "010"%char])
    ++ [Printf "Total: %u\n" [Num (Z.of_nat (length visible))]].
Proof.
  apply (ls_lists_visible_files sample_disks ["ls"; "-l"]%string []).
  reflexivity.
Defined.

(** *** The command table and the keys *)

Lemma find_command_first table name :
  match find_command table name with
  | Some function =>
      exists before after,
        table = before ++ (name, function) :: after
        /\ Forall (fun entry => entry.1 <> name) before
  | None => Forall (fun entry => entry.1 <> name) table
  end.
Proof.
  induction table as [|[command_name function] rest IH]; cbn [find_command].
  - constructor.
  - destruct (String.eqb_spec name command_name) as [->|Hne].
    + exists [], rest. split; [reflexivity | constructor].
    + destruct (find_command rest name) as [g|].
      * destruct IH as (before & after & -> & Hbefore).
        exists ((command_name, function) :: before), after. split; [reflexivity|].
        constructor; [cbn; congruence | exact Hbefore].
      * constructor; [cbn; congruence | exact IH].
Qed.

Lemma commands_names_differ : NoDup (List.map fst commands).
Proof. apply (bool_decide_unpack _). vm_compute. exact I. Qed.

Lemma find_command_entry name function :
  (name, function) ∈ commands -> find_command commands name = Some function.
Proof.
  intros Hin. pose proof (find_command_first commands name) as Hfirst.
  destruct (find_command commands name) as [g|].
  - destruct Hfirst as (before & after & Htable & Hbefore).
    pose proof commands_names_differ as Hnodup. rewrite Htable in Hin, Hnodup.
    rewrite map_app in Hnodup. cbn [List.map fst] in Hnodup.
    apply NoDup_app in Hnodup as (_ & Hdisjoint & Hafter).
    apply NoDup_cons in Hafter as (Hnotin & _).
    apply elem_of_app in Hin as [Hin | Hin].
    + rewrite Forall_forall in Hbefore. exfalso. apply (Hbefore _ Hin). reflexivity.
    + apply elem_of_cons in Hin as [Hin | Hin]; [congruence|].
      exfalso. apply Hnotin. apply list_elem_of_fmap. exists (name, function).
      split; [reflexivity | exact Hin].
  - rewrite Forall_forall in Hfirst. exfalso. apply (Hfirst _ Hin). reflexivity.
Qed.

(** X20: [exec_shell_command] calls the entry of the table named by the first
    word of the line, with all the words, and calls nothing when no entry has
    that name; it returns exactly when no command was called or the command
    that was called comes back.  It leaves the line as it is and, with the
    history enabled, appends it to the history and moves the index past the
    end, before the call. *)
Theorem command_chosen_by_first_word Enable t sh :
  split t (current_input sh) <> [] ->
  let params := split t (current_input sh) in
  let after := shell_of (exec_shell_command Enable t sh) in
  (forall function, (params !!! 0, function) ∈ commands ->
     screen after = screen sh ++ [Run function params]
     /\ exec_shell_command Enable t sh
        = (if command_returns t function params then Continues after else Leaves after))
  /\ ((forall function, (params !!! 0, function) ∉ commands) ->
      exec_shell_command Enable t sh = Continues after
      /\ forall function arguments,
           Run function arguments ∉ drop (length (screen sh)) (screen after))
  /\ current_input after = current_input sh
  /\ history after = (if Enable then history sh ++ [current_input sh] else history sh)
  /\ (Enable = true -> history_index after = length (history after)).
Proof.
  intros _. cbv zeta.
  assert (Hinput : current_input (history_save Enable sh) = current_input sh)
    by (destruct Enable; reflexivity).
  assert (Hscreen : screen (history_save Enable sh) = screen sh)
    by (destruct Enable; reflexivity).
  unfold exec_shell_command. cbv zeta. rewrite Hinput.
  split_and!.
  - intros function Hin. rewrite (find_command_entry _ _ Hin).
    destruct (command_returns t function (split t (current_input sh)));
      cbn [shell_of show screen]; rewrite Hscreen; split; reflexivity.
  - intros Hnone.
    pose proof (find_command_first commands (split t (current_input sh) !!! 0)) as Hfirst.
    destruct (find_command commands (split t (current_input sh) !!! 0)) as [g|].
    + destruct Hfirst as (before & after & Htable & _). exfalso.
      apply (Hnone g). rewrite Htable. apply elem_of_app. right. left.
    + split; [reflexivity|]. intros function arguments.
      cbn [shell_of show screen]. rewrite Hscreen, drop_app_length.
      intros H. in_outputs. discriminate.
  - destruct (find_command commands _) as [g|]; [destruct (command_returns t g _)|];
      cbn [shell_of show current_input]; exact Hinput.
  - destruct (find_command commands _) as [g|]; [destruct (command_returns t g _)|];
      cbn [shell_of show history]; destruct Enable; reflexivity.
  - intros ->.
    destruct (find_command commands _) as [g|]; [destruct (command_returns t g _)|];
      reflexivity.
Qed.

Lemma command_chosen_by_first_word_witness :
  let params := split sample_terminal (current_input sample_shell) in
  let after := shell_of (exec_shell_command true sample_terminal sample_shell) in
  (forall function, (params !!! 0, function) ∈ commands ->
     screen after = screen sample_shell ++ [Run function params]
     /\ exec_shell_command true sample_terminal sample_shell
        = (if command_returns sample_terminal function params
           then Continues after else Leaves after))
  /\ ((forall function, (params !!! 0, function) ∉ commands) ->
      exec_shell_command true sample_terminal sample_shell = Continues after
      /\ forall function arguments,
           Run function arguments ∉ drop (length (screen sample_shell)) (screen after))
  /\ current_input after = current_input sample_shell
  /\ history after = (if true then history sample_shell ++ [current_input sample_shell]
                      else history sample_shell)
  /\ (true = true -> history_index after = length (history after)).
Proof.
  apply (command_chosen_by_first_word true sample_terminal sample_shell).
  discriminate.
Defined.

Lemma history_key_index Enable t key sh :
  history_index sh <= length (history sh) ->
  history (history_key Enable t key sh) = history sh
  /\ history_index (history_key Enable t key sh) <= length (history sh).
Proof.
  intros Hindex. unfold history_key. destruct Enable; cbn [negb]; [|done].
  destruct (0 <? length (history sh)); [|done].
  destruct (key =? KEY_UP t)%Z.
  - destruct (Nat.eqb_spec (history_index sh) 0); [done|].
    cbn [history history_index]. split; [reflexivity | lia].
  - destruct (Nat.eqb_spec (history_index sh) (length (history sh))); [done|].
    cbn [history history_index]. split; [reflexivity | lia].
Qed.

Lemma exec_shell_command_index Enable t sh :
  history_index sh <= length (history sh) ->
  history_index (shell_of (exec_shell_command Enable t sh))
  <= length (history (shell_of (exec_shell_command Enable t sh))).
Proof.
  intros Hindex. unfold exec_shell_command. cbv zeta.
  destruct (find_command commands _) as [g|]; [destruct (command_returns t g _)|];
    cbn [shell_of show history history_index];
    destruct Enable; cbn [history_save negb history history_index]; lia.
Qed.

(** X21: whatever key the shell handles, and whether or not a command that
    it calls comes back, the history index stays within the history, its end
    included. *)
Theorem history_index_in_range Enable t key sh :
  history_index sh <= length (history sh) ->
  history_index (shell_of (shell_key Enable t key sh))
  <= length (history (shell_of (shell_key Enable t key sh))).
Proof.
  intros Hindex. unfold shell_key.
  destruct (negb (Z.land key 128 =? 0)%Z).
  { cbv zeta. destruct (_ || _)%bool; exact Hindex. }
  destruct (key =? KEY_ENTER t)%Z.
  { cbv zeta. cbn [show current_input].
    destruct (0 <? String.length (current_input sh)); [|exact Hindex].
    pose proof (exec_shell_command_index Enable t (show [PrintLine EmptyString] sh) Hindex)
      as Hexec.
    destruct (exec_shell_command Enable t (show [PrintLine EmptyString] sh)) as [sh'|sh'];
      cbn [shell_of] in Hexec |- *; [|exact Hexec].
    destruct (negb _); exact Hexec. }
  destruct (_ || _)%bool; [exact Hindex|].
  destruct (_ || _)%bool.
  { cbn [shell_of].
    destruct (history_key_index Enable t key sh Hindex) as [-> Hle]. exact Hle. }
  destruct (key =? KEY_BACKSPACE t)%Z.
  { destruct (0 <? String.length (current_input sh)); exact Hindex. }
  cbv zeta. destruct (negb _); exact Hindex.
Qed.

Lemma history_index_in_range_witness :
  history_index (shell_of (shell_key true sample_terminal 0x48 sample_shell))
  <= length (history (shell_of (shell_key true sample_terminal 0x48 sample_shell))).
Proof.
  apply (history_index_in_range true sample_terminal 0x48%Z sample_shell).
  cbn. lia.
Defined.

(** X22: from an entry of the history other than the first, or from past its
    end, the key up recalls the entry before and the key down after it moves
    the index back;
    the line is then the entry at the index, and past the end of the history it
    stays the entry recalled last, not the line that was there before. *)
Theorem up_then_down_keeps_recalled_line t sh :
  KEY_UP t <> KEY_DOWN t ->
  0 < history_index sh <= length (history sh) ->
  let up := history_key true t (KEY_UP t) sh in
  let down := history_key true t (KEY_DOWN t) up in
  history_index up = history_index sh - 1
  /\ current_input up = history sh !!! (history_index sh - 1)
  /\ history_index down = history_index sh
  /\ current_input down
     = (if history_index sh <? length (history sh)
        then history sh !!! history_index sh
        else history sh !!! (history_index sh - 1))
  /\ history down = history sh.
Proof.
  intros Hkeys [Hpos Hindex]. cbv zeta.
  assert (Hup : history_key true t (KEY_UP t) sh
    = {| history := history sh; history_index := history_index sh - 1;
         shift := shift sh;
         current_input := history sh !!! (history_index sh - 1);
         screen := screen sh ++ [SetColumn 6]
                   ++ replicate (String.length (current_input sh)) (PrintChar " "%char)
                   ++ [SetColumn 6]
                   ++ [PrintStr (history sh !!! (history_index sh - 1))] |}).
  { unfold history_key. cbn [negb]. rewrite Z.eqb_refl.
    destruct (Nat.ltb_spec 0 (length (history sh))); [|lia].
    destruct (Nat.eqb_spec (history_index sh) 0); [lia|].
    destruct (Nat.ltb_spec (history_index sh - 1) (length (history sh))); [|lia].
    reflexivity. }
  rewrite Hup. unfold history_key. cbn [negb history history_index current_input].
  destruct (Nat.ltb_spec 0 (length (history sh))); [|lia].
  destruct (Z.eqb_spec (KEY_DOWN t) (KEY_UP t)); [congruence|].
  destruct (Nat.eqb_spec (history_index sh - 1) (length (history sh))); [lia|].
  replace (history_index sh - 1 + 1) with (history_index sh) by lia.
  cbn [history history_index current_input]. split_and!; try reflexivity.
Qed.

Lemma up_then_down_keeps_recalled_line_witness :
  let up := history_key true sample_terminal (KEY_UP sample_terminal) sample_shell in
  let down := history_key true sample_terminal (KEY_DOWN sample_terminal) up in
  history_index up = history_index sample_shell - 1
  /\ current_input up = history sample_shell !!! (history_index sample_shell - 1)
  /\ history_index down = history_index sample_shell
  /\ current_input down
     = (if history_index sample_shell <? length (history sample_shell)
        then history sample_shell !!! history_index sample_shell
        else history sample_shell !!! (history_index sample_shell - 1))
  /\ history down = history sample_shell.
Proof.
  apply (up_then_down_keeps_recalled_line sample_terminal sample_shell).
  - discriminate.
  - cbn. lia.
Defined.

Lemma pop_back_push_back s c : pop_back (push_back s c) = s.
Proof.
  unfold push_back. induction s as [|a rest IH]; [reflexivity|].
  destruct rest as [|b rest]; [reflexivity|].
  change (pop_back (String b (rest +:+ String c EmptyString)) = String b rest) in IH.
  change (String a (pop_back (String b (rest +:+ String c EmptyString)))
          = String a (String b rest)).
  rewrite IH. reflexivity.
Qed.

Lemma length_push_back s c : String.length (push_back s c) = S (String.length s).
Proof.
  unfold push_back. induction s as [|a rest IH]; [reflexivity|].
  change (S (String.length (rest +:+ String c EmptyString)) = S (S (String.length rest))).
  rewrite IH. reflexivity.
Qed.

(** X23: a pressed key that gives a character appends it to the line and
    prints it, and a backspace after it gives the line back and prints a
    backspace; the loop goes on after both, and the history and the shift
    state are untouched. *)
Theorem backspace_undoes_key Enable t key sh :
  Z.land key 0x80 = 0%Z -> Z.land (KEY_BACKSPACE t) 0x80 = 0%Z ->
  key ∉ [KEY_ENTER t; KEY_LEFT_SHIFT t; KEY_RIGHT_SHIFT t; KEY_UP t; KEY_DOWN t;
         KEY_BACKSPACE t] ->
  KEY_BACKSPACE t ∉ [KEY_ENTER t; KEY_LEFT_SHIFT t; KEY_RIGHT_SHIFT t; KEY_UP t;
                     KEY_DOWN t] ->
  let c := if shift sh then shift_key_to_ascii t key else key_to_ascii t key in
  c <> "000"%char ->
  let typed := shell_of (shell_key Enable t key sh) in
  let erased := shell_of (shell_key Enable t (KEY_BACKSPACE t) typed) in
  shell_key Enable t key sh = Continues typed
  /\ shell_key Enable t (KEY_BACKSPACE t) typed = Continues erased
  /\ current_input typed = push_back (current_input sh) c
  /\ screen typed = screen sh ++ [PrintChar c]
  /\ current_input erased = current_input sh
  /\ screen erased = screen sh ++ [PrintChar c; PrintChar "008"%char]
  /\ history erased = history sh
  /\ history_index erased = history_index sh
  /\ shift erased = shift sh.
Proof.
  intros Hpressed Hpressed' Hkey Hback. cbv zeta. intros Hchar.
  repeat (apply not_elem_of_cons in Hkey as [? Hkey]).
  repeat (apply not_elem_of_cons in Hback as [? Hback]).
  assert (Htyped : shell_key Enable t key sh
    = Continues
        (show [PrintChar (if shift sh then shift_key_to_ascii t key
                          else key_to_ascii t key)]
           (set_input (push_back (current_input sh)
              (if shift sh then shift_key_to_ascii t key else key_to_ascii t key)) sh))).
  { unfold shell_key. rewrite Hpressed. cbn [Z.eqb negb].
    repeat match goal with
           | |- context [(key =? ?k)%Z] =>
               destruct (Z.eqb_spec key k); [congruence|]
           end.
    cbn [orb]. cbv zeta.
    destruct (Ascii.eqb_spec
      (if shift sh then shift_key_to_ascii t key else key_to_ascii t key) "000"%char);
      [contradiction | reflexivity]. }
  rewrite Htyped. cbn [shell_of].
  set (typed := show _ _).
  assert (Herased : shell_key Enable t (KEY_BACKSPACE t) typed
    = Continues (set_input (pop_back (current_input typed))
                           (show [PrintChar "008"%char] typed))).
  { unfold shell_key. rewrite Hpressed'. cbn [Z.eqb negb].
    repeat match goal with
           | |- context [(KEY_BACKSPACE t =? ?k)%Z] =>
               lazymatch k with
               | KEY_BACKSPACE t => fail
               | _ => destruct (Z.eqb_spec (KEY_BACKSPACE t) k); [congruence|]
               end
           end.
    rewrite Z.eqb_refl. cbn [orb].
    subst typed. cbn [show set_input current_input].
    rewrite length_push_back. reflexivity. }
  rewrite Herased. cbn [shell_of]. subst typed.
  cbn [show set_input current_input screen history history_index shift].
  rewrite pop_back_push_back, <- app_assoc. split_and!; reflexivity.
Qed.

Lemma backspace_undoes_key_witness :
  let c := if shift sample_shell then shift_key_to_ascii sample_terminal 0x1E
           else key_to_ascii sample_terminal 0x1E in
  let typed := shell_of (shell_key true sample_terminal 0x1E sample_shell) in
  let erased :=
    shell_of (shell_key true sample_terminal (KEY_BACKSPACE sample_terminal) typed) in
  shell_key true sample_terminal 0x1E sample_shell = Continues typed
  /\ shell_key true sample_terminal (KEY_BACKSPACE sample_terminal) typed
     = Continues erased
  /\ current_input typed = push_back (current_input sample_shell) c
  /\ screen typed = screen sample_shell ++ [PrintChar c]
  /\ current_input erased = current_input sample_shell
  /\ screen erased = screen sample_shell ++ [PrintChar c; PrintChar "008"%char]
  /\ history erased = history sample_shell
  /\ history_index erased = history_index sample_shell
  /\ shift erased = shift sample_shell.
Proof.
  apply (backspace_undoes_key true sample_terminal 0x1E%Z sample_shell).
  - reflexivity.
  - reflexivity.
  - cbn. intros H. in_outputs; discriminate.
  - cbn. intros H. in_outputs; discriminate.
  - discriminate.
Defined.

Lemma length_zero_empty s : String.length s = 0 -> s = EmptyString.
Proof. destruct s; [reflexivity | discriminate]. Qed.

(** X24: the key enter on an empty line prints the line break and the prompt
    and nothing else.  On a line that is not empty the loop goes on exactly
    when no command of the table has the name of the first word or the command
    that is called comes back: then the line is empty afterwards, the prompt
    is the last thing printed, and the line is in the history when the
    history is enabled.  When the command does not come back, the call is the
    last thing that the shell does: the line is not cleared and no prompt is
    printed. *)
Theorem enter_clears_line Enable t sh :
  Z.land (KEY_ENTER t) 0x80 = 0%Z ->
  let params := split t (current_input sh) in
  match shell_key Enable t (KEY_ENTER t) sh with
  | Continues after =>
      (current_input sh = EmptyString
       \/ match find_command commands (params !!! 0) with
          | Some function => command_returns t function params = true
          | None => True
          end)
      /\ current_input after = EmptyString
      /\ last (screen after) = Some (PrintStr "thor> ")
      /\ history after
         = (if Enable && (0 <? String.length (current_input sh))
            then history sh ++ [current_input sh] else history sh)
      /\ (current_input sh = EmptyString ->
          screen after = screen sh ++ [PrintLine EmptyString; PrintStr "thor> "])
  | Leaves after =>
      current_input sh <> EmptyString
      /\ (exists function,
            find_command commands (params !!! 0) = Some function
            /\ command_returns t function params = false
            /\ screen after
               = screen sh ++ [PrintLine EmptyString; Run function params])
      /\ current_input after = current_input sh
  end.
Proof.
  intros Hpressed. cbv zeta. unfold shell_key.
  rewrite Hpressed. cbn [Z.eqb negb]. rewrite Z.eqb_refl. cbv zeta.
  cbn [show current_input].
  destruct (Nat.ltb_spec 0 (String.length (current_input sh))) as [Hl|Hl].
  - assert (Hinput : forall sh0, current_input (history_save Enable sh0) = current_input sh0)
      by (intros sh0; destruct Enable; reflexivity).
    assert (Hscreen : forall sh0, screen (history_save Enable sh0) = screen sh0)
      by (intros sh0; destruct Enable; reflexivity).
    unfold exec_shell_command. cbv zeta. rewrite Hinput. cbn [show current_input].
    destruct (find_command commands (split t (current_input sh) !!! 0)) as [function|].
    + destruct (command_returns t function (split t (current_input sh))) eqn:Hreturns.
      * split_and!.
        -- right. reflexivity.
        -- destruct (negb _); reflexivity.
        -- cbn [show screen]. apply last_snoc.
        -- rewrite andb_true_r. destruct (negb _); destruct Enable; reflexivity.
        -- intros Hempty. rewrite Hempty in Hl. cbn in Hl. lia.
      * split_and!.
        -- intros Hempty. rewrite Hempty in Hl. cbn in Hl. lia.
        -- exists function. split_and!; [reflexivity | exact Hreturns |].
           cbn [show screen]. rewrite Hscreen. cbn [show screen].
           rewrite <- app_assoc. reflexivity.
        -- cbn [show current_input]. rewrite Hinput. reflexivity.
    + split_and!.
      * right. exact I.
      * destruct (negb _); reflexivity.
      * cbn [show screen]. apply last_snoc.
      * rewrite andb_true_r. destruct (negb _); destruct Enable; reflexivity.
      * intros Hempty. rewrite Hempty in Hl. cbn in Hl. lia.
  - assert (Hempty : current_input sh = EmptyString) by (apply length_zero_empty; lia).
    split_and!.
    + left. exact Hempty.
    + exact Hempty.
    + cbn [show screen]. apply last_snoc.
    + rewrite andb_false_r. reflexivity.
    + intros _. cbn [show screen]. rewrite <- app_assoc. reflexivity.
Qed.

Lemma enter_clears_line_witness :
  let params := split sample_terminal (current_input reboot_typed) in
  match shell_key true sample_terminal (KEY_ENTER sample_terminal) reboot_typed with
  | Continues after =>
      (current_input reboot_typed = EmptyString
       \/ match find_command commands (params !!! 0) with
          | Some function => command_returns sample_terminal function params = true
          | None => True
          end)
      /\ current_input after = EmptyString
      /\ last (screen after) = Some (PrintStr "thor> ")
      /\ history after
         = (if true && (0 <? String.length (current_input reboot_typed))
            then history reboot_typed ++ [current_input reboot_typed]
            else history reboot_typed)
      /\ (current_input reboot_typed = EmptyString ->
          screen after
          = screen reboot_typed ++ [PrintLine EmptyString; PrintStr "thor> "])
  | Leaves after =>
      current_input reboot_typed <> EmptyString
      /\ (exists function,
            find_command commands (params !!! 0) = Some function
            /\ command_returns sample_terminal function params = false
            /\ screen after
               = screen reboot_typed ++ [PrintLine EmptyString; Run function params])
      /\ current_input after = current_input reboot_typed
  end.
Proof.
  apply (enter_clears_line true sample_terminal reboot_typed).
  reflexivity.
Defined.

(** On the sample keyboard, the key enter after [reboot] was typed calls
    [reboot_command] and nothing follows; after [cd] was typed the command is
    called and the prompt comes back. *)
Example reboot_leaves_the_shell :
  shell_key true sample_terminal (KEY_ENTER sample_terminal) reboot_typed
  = Leaves {| history := ["ls"; "pwd"; "reboot"]%string; history_index := 3;
              shift := false; current_input := "reboot"%string;
              screen := [PrintStr "thor> "; PrintStr "cd"; PrintLine EmptyString;
                         Run reboot_command ["reboot"%string]] |}
  /\ shell_key true sample_terminal (KEY_ENTER sample_terminal) sample_shell
     = Continues {| history := ["ls"; "pwd"; "cd"]%string; history_index := 3;
                    shift := false; current_input := EmptyString;
                    screen := [PrintStr "thor> "; PrintStr "cd"; PrintLine EmptyString;
                               Run cd_command ["cd"%string]; PrintStr "thor> "] |}.
Proof. split; reflexivity. Qed.

End CommandProofs.
